(** * TrackAudio Stream Deck plugin: connection manager, message decoding
      and the ATIS letter controller

    A shallow embedding of

    - [src/trackAudioManager.ts]: the [TrackAudioManager] singleton that owns
      the websocket, its reconnect timer and the inbound [processMessage]
      dispatcher;
    - the message type guards of [types/messages];
    - the [letter] and [isUpdated] setters of [AtisLetterController];

    together with the properties of the specification that concern them. *)

From Stdlib Require Import Ascii String NArith ZArith Lia.
From stdpp Require Import base option list gmap.

Local Set Warnings "-register-all".
Local Open Scope N_scope.

(** ** JavaScript strings and [JSON.parse] *)

Module Json.

(** A JavaScript string is a sequence of UTF-16 code units. *)
Definition JsString := list N.

(** Code units of an ASCII literal of the source. *)
Definition js (s : string) : JsString :=
  map N_of_ascii (list_ascii_of_string s).

(** Test inputs are written with single quotes standing for the double
    quotes of JSON text. *)
Definition frame (s : string) : JsString :=
  map (fun c => if c =? 39 then 34 else c) (js s).

(** Values produced by [JSON.parse].  A number is kept as the lexeme it was
    read from; an object keeps its members in source order, duplicates
    included. *)
Inductive JsonValue : Type :=
| JNull
| JBool (b : bool)
| JNumber (lexeme : JsString)
| JString (s : JsString)
| JArray (items : list JsonValue)
| JObject (members : list (JsString * JsonValue)).

(** Outcome of one parsing function: a value and the unread input, a syntax
    error, or exhaustion of the recursion budget. *)
Inductive Parse (A : Type) : Type :=
| Parsed (a : A) (rest : JsString)
| SyntaxErr
| OutOfFuel.
Arguments Parsed {A} a rest.
Arguments SyntaxErr {A}.
Arguments OutOfFuel {A}.

Definition ascii_of_unit (c : N) : option ascii :=
  if c <? 256 then Some (ascii_of_N c) else None.

Definition is_ws (c : N) : bool :=
  (c =? 9) || (c =? 10) || (c =? 13) || (c =? 32).

Definition is_digit (c : N) : bool := (48 <=? c) && (c <=? 57).

Fixpoint skip_ws (s : JsString) : JsString :=
  match s with
  | c :: rest => if is_ws c then skip_ws rest else s
  | [] => []
  end.

Fixpoint strip_prefix (p s : JsString) : option JsString :=
  match p, s with
  | [], _ => Some s
  | a :: p', b :: s' => if a =? b then strip_prefix p' s' else None
  | _ :: _, [] => None
  end.

(** *** Strings *)

Definition hex_digit (c : N) : option N :=
  if is_digit c then Some (c - 48)
  else if (65 <=? c) && (c <=? 70) then Some (c - 55)
  else if (97 <=? c) && (c <=? 102) then Some (c - 87)
  else None.

Definition hex4 (a b c d : N) : option N :=
  match hex_digit a, hex_digit b, hex_digit c, hex_digit d with
  | Some x, Some y, Some z, Some w => Some (((x * 16 + y) * 16 + z) * 16 + w)
  | _, _, _, _ => None
  end.

Definition unescape (c : N) : option N :=
  match ascii_of_unit c with
  | Some "034"%char => Some 34
  | Some "\"%char => Some 92
  | Some "/"%char => Some 47
  | Some "b"%char => Some 8
  | Some "f"%char => Some 12
  | Some "n"%char => Some 10
  | Some "r"%char => Some 13
  | Some "t"%char => Some 9
  | _ => None
  end.

(** Reads the characters of a string literal, the opening quote being
    already consumed. *)
Fixpoint parse_chars (s : JsString) (acc : JsString) : Parse JsString :=
  match s with
  | [] => SyntaxErr
  | c :: rest =>
    if c =? 34 then Parsed (rev acc) rest
    else if c =? 92 then
      match rest with
      | [] => SyntaxErr
      | e :: rest1 =>
        if e =? 117 then
          match rest1 with
          | h1 :: h2 :: h3 :: h4 :: rest2 =>
            match hex4 h1 h2 h3 h4 with
            | Some u => parse_chars rest2 (u :: acc)
            | None => SyntaxErr
            end
          | _ => SyntaxErr
          end
        else
          match unescape e with
          | Some u => parse_chars rest1 (u :: acc)
          | None => SyntaxErr
          end
      end
    else if c <? 32 then SyntaxErr
    else parse_chars rest (c :: acc)
  end.

(** *** Numbers *)

Fixpoint span_digits (s : JsString) : JsString * JsString :=
  match s with
  | c :: rest =>
    if is_digit c
    then let '(ds, r) := span_digits rest in (c :: ds, r)
    else ([], s)
  | [] => ([], [])
  end.

Definition parse_int (s : JsString) : Parse JsString :=
  match s with
  | c :: rest =>
    if c =? 48 then Parsed [c] rest
    else if is_digit c
    then let '(ds, r) := span_digits rest in Parsed (c :: ds) r
    else SyntaxErr
  | [] => SyntaxErr
  end.

Definition parse_frac (s : JsString) : Parse JsString :=
  match s with
  | c :: rest =>
    if c =? 46 then
      match span_digits rest with
      | ([], _) => SyntaxErr
      | (ds, r) => Parsed (c :: ds) r
      end
    else Parsed [] s
  | [] => Parsed [] s
  end.

Definition parse_exp (s : JsString) : Parse JsString :=
  match s with
  | c :: rest =>
    if (c =? 101) || (c =? 69) then
      let '(sign, rest1) :=
        match rest with
        | g :: rest' =>
          if (g =? 43) || (g =? 45) then ([g], rest') else ([], rest)
        | [] => ([], rest)
        end in
      match span_digits rest1 with
      | ([], _) => SyntaxErr
      | (ds, r) => Parsed (c :: sign ++ ds) r
      end
    else Parsed [] s
  | [] => Parsed [] s
  end.

Definition parse_number (s : JsString) : Parse JsString :=
  let '(sign, s1) :=
    match s with
    | c :: rest => if c =? 45 then ([c], rest) else ([], s)
    | [] => ([], s)
    end in
  match parse_int s1 with
  | Parsed i s2 =>
    match parse_frac s2 with
    | Parsed f s3 =>
      match parse_exp s3 with
      | Parsed e s4 => Parsed (sign ++ i ++ f ++ e) s4
      | SyntaxErr => SyntaxErr
      | OutOfFuel => OutOfFuel
      end
    | SyntaxErr => SyntaxErr
    | OutOfFuel => OutOfFuel
    end
  | SyntaxErr => SyntaxErr
  | OutOfFuel => OutOfFuel
  end.

(** *** Values *)

Definition parse_literal (lit : string) (v : JsonValue) (s : JsString)
  : Parse JsonValue :=
  match strip_prefix (js lit) s with
  | Some rest => Parsed v rest
  | None => SyntaxErr
  end.

(** What the first character of a value announces. *)
Inductive Start : Type :=
| StartObject | StartArray | StartString
| StartTrue | StartFalse | StartNull | StartNumber.

Definition start_of (c : N) : Start :=
  match ascii_of_unit c with
  | Some "{"%char => StartObject
  | Some "["%char => StartArray
  | Some "034"%char => StartString
  | Some "t"%char => StartTrue
  | Some "f"%char => StartFalse
  | Some "n"%char => StartNull
  | _ => StartNumber
  end.

Fixpoint parse_value (fuel : nat) (s : JsString) {struct fuel}
  : Parse JsonValue :=
  match fuel with
  | O => OutOfFuel
  | S fuel =>
    match skip_ws s with
    | [] => SyntaxErr
    | c :: rest =>
      match start_of c with
      | StartObject =>
        match skip_ws rest with
        | d :: rest1 =>
          if d =? 125 then Parsed (JObject []) rest1
          else parse_members fuel rest []
        | [] => SyntaxErr
        end
      | StartArray =>
        match skip_ws rest with
        | d :: rest1 =>
          if d =? 93 then Parsed (JArray []) rest1
          else parse_elements fuel rest []
        | [] => SyntaxErr
        end
      | StartString =>
        match parse_chars rest [] with
        | Parsed str rest1 => Parsed (JString str) rest1
        | SyntaxErr => SyntaxErr
        | OutOfFuel => OutOfFuel
        end
      | StartTrue => parse_literal "true" (JBool true) (c :: rest)
      | StartFalse => parse_literal "false" (JBool false) (c :: rest)
      | StartNull => parse_literal "null" JNull (c :: rest)
      | StartNumber =>
        match parse_number (c :: rest) with
        | Parsed lexeme rest1 => Parsed (JNumber lexeme) rest1
        | SyntaxErr => SyntaxErr
        | OutOfFuel => OutOfFuel
        end
      end
    end
  end

with parse_elements (fuel : nat) (s : JsString) (acc : list JsonValue)
  {struct fuel} : Parse JsonValue :=
  match fuel with
  | O => OutOfFuel
  | S fuel =>
    match parse_value fuel s with
    | Parsed v rest =>
      match skip_ws rest with
      | d :: rest1 =>
        if d =? 44 then parse_elements fuel rest1 (v :: acc)
        else if d =? 93 then Parsed (JArray (rev (v :: acc))) rest1
        else SyntaxErr
      | [] => SyntaxErr
      end
    | SyntaxErr => SyntaxErr
    | OutOfFuel => OutOfFuel
    end
  end

with parse_members (fuel : nat) (s : JsString)
  (acc : list (JsString * JsonValue)) {struct fuel} : Parse JsonValue :=
  match fuel with
  | O => OutOfFuel
  | S fuel =>
    match skip_ws s with
    | q :: rest =>
      if q =? 34 then
        match parse_chars rest [] with
        | Parsed key rest1 =>
          match skip_ws rest1 with
          | colon :: rest2 =>
            if colon =? 58 then
              match parse_value fuel rest2 with
              | Parsed v rest3 =>
                match skip_ws rest3 with
                | d :: rest4 =>
                  if d =? 44 then parse_members fuel rest4 ((key, v) :: acc)
                  else if d =? 125
                  then Parsed (JObject (rev ((key, v) :: acc))) rest4
                  else SyntaxErr
                | [] => SyntaxErr
                end
              | SyntaxErr => SyntaxErr
              | OutOfFuel => OutOfFuel
              end
            else SyntaxErr
          | [] => SyntaxErr
          end
        | SyntaxErr => SyntaxErr
        | OutOfFuel => OutOfFuel
        end
      else SyntaxErr
    | [] => SyntaxErr
    end
  end.

(** Two calls are made for every character read at most. *)
Definition fuel_for (s : JsString) : nat := 2 * length s + 2.

(** [JSON.parse(text)]: [None] stands for the [SyntaxError] it throws. *)
Definition JSON_parse (text : JsString) : option JsonValue :=
  match parse_value (fuel_for text) text with
  | Parsed v rest =>
    match skip_ws rest with
    | [] => Some v
    | _ :: _ => None
    end
  | SyntaxErr => None
  | OutOfFuel => None
  end.

(** A parsing function applied to [s] consumes if it stays within its
    budget and, when it succeeds, leaves strictly less than [s] unread. *)
Definition consumes {A} (s : JsString) (p : Parse A) : Prop :=
  match p with
  | Parsed _ rest => (length rest < length s)%nat
  | SyntaxErr => True
  | OutOfFuel => False
  end.

End Json.


(** ** Exceptions *)

Inductive Exn : Type :=
| SyntaxError
| TypeError
| Error (text : string).

Inductive Result (A : Type) : Type :=
| Return (a : A)
| Throw (e : Exn).
Arguments Return {A} a.
Arguments Throw {A} e.

#[global] Instance Result_ret : MRet Result := fun _ a => Return a.
#[global] Instance Result_bind : MBind Result := fun _ _ k m =>
  match m with
  | Return a => k a
  | Throw e => Throw e
  end.

(** ** Message type guards ([types/messages]) *)

Module Messages.
Import Json.

(** [message.type]: reading a property of [null] throws; a value without
    that property yields [undefined], here [None]. *)
Fixpoint own_property (key : JsString) (members : list (JsString * JsonValue))
  : option JsonValue :=
  match members with
  | [] => None
  | (k, v) :: rest =>
    match own_property key rest with
    | Some later => Some later
    | None => if bool_decide (k = key) then Some v else None
    end
  end.

Definition message_type (message : JsonValue) : Result (option JsonValue) :=
  match message with
  | JNull => Throw TypeError
  | JObject members => Return (own_property (js "type") members)
  | JBool _ | JNumber _ | JString _ | JArray _ => Return None
  end.

(** [value === "literal"] *)
Definition is_literal (value : option JsonValue) (literal : string) : bool :=
  match value with
  | Some (JString s) => bool_decide (s = js literal)
  | _ => false
  end.

Definition has_type (literal : string) (message : JsonValue) : Result bool :=
  t ← message_type message; mret (is_literal t literal).

Definition isFrequencyStateUpdate := has_type "kFrequencyStateUpdate".
Definition isStationStateUpdate := has_type "kStationStateUpdate".
Definition isStationStates := has_type "kStationStates".
Definition isRxBegin := has_type "kRxBegin".
Definition isRxEnd := has_type "kRxEnd".
Definition isTxBegin := has_type "kTxBegin".
Definition isTxEnd := has_type "kTxEnd".

(** The seven guards of the module, in the order of the [IncomingMessage]
    union. *)
Definition guards : list (JsonValue -> Result bool) :=
  [isFrequencyStateUpdate; isStationStates; isStationStateUpdate;
   isRxBegin; isRxEnd; isTxBegin; isTxEnd].

Definition accepts (guard : JsonValue -> Result bool) (message : JsonValue)
  : bool :=
  match guard message with
  | Return true => true
  | Return false | Throw _ => false
  end.

End Messages.

(** ** The connection manager ([trackAudioManager.ts]) *)

Module TrackAudio.
Import Json Messages.

Local Open Scope Z_scope.

(** [WebSocket.readyState] *)
Inductive ReadyState : Type := CONNECTING | OPEN | CLOSING | CLOSED.

#[global] Instance ReadyState_eq_dec : EqDecision ReadyState.
Proof. solve_decision. Defined.

(** The [Error & { code: string }] handed to the ["error"] listener. *)
Record SocketError : Type := {
  code : JsString;
  message : JsString;
}.

(** Everything the manager does to the outside: console output, events
    emitted on the singleton, calls into the [ws] library and into the
    timer API, and an exception leaving a listener, a timer callback or a
    method.  [NewWebSocket s address] is a call of the constructor that
    returned socket [s]; [SocketSend s data] stands for
    [socket.send(JSON.stringify(data))]. *)
Inductive Action : Type :=
| ConsoleLog (format : string) (args : list JsString)
| ConsoleWarn (text : string)
| ConsoleError (text : string) (args : list JsString)
| Emit (event : string) (payload : option JsonValue)
| NewWebSocket (s : nat) (address : JsString)
| SocketSend (s : nat) (data : JsonValue)
| SocketClose (s : nat)
| SetTimeout (t : nat) (delay : Z)
| ClearTimeout (t : nat)
| Uncaught (e : Exn).

(** The private fields of [TrackAudioManager].  [socket] and
    [reconnectTimer] hold references: a socket is named by its index in the
    world's table of sockets, a timer by its handle. *)
Record Manager : Type := {
  socket : option nat;
  reconnectInterval : Z;
  url : JsString;
  reconnectTimer : option nat;
}.

(** The manager together with the objects it shares with the runtime: the
    sockets created so far, each with its current [readyState] (their
    listeners stay attached whether or not [socket] still refers to them),
    the timers that are scheduled and have neither fired nor been
    cleared, and what the [ws] constructor makes of the address in [url]:
    it returns a socket for an address it can use and throws at once for
    any other string. *)
Record World : Type := {
  mgr : Manager;
  sockets : list ReadyState;
  timers : list (nat * Z);
  nextTimer : nat;
  url_usable : bool;
}.

(** The default address is one the constructor accepts. *)
Definition initial : World := {|
  mgr := {| socket := None;
            reconnectInterval := 1000 * 5;
            url := js "ws://localhost:49080/ws";
            reconnectTimer := None |};
  sockets := [];
  timers := [];
  nextTimer := 0%nat;
  url_usable := true;
|}.

Definition set_mgr (m : Manager) (w : World) : World :=
  {| mgr := m; sockets := sockets w; timers := timers w;
     nextTimer := nextTimer w; url_usable := url_usable w |}.

Definition set_socket (s : option nat) (m : Manager) : Manager :=
  {| socket := s; reconnectInterval := reconnectInterval m; url := url m;
     reconnectTimer := reconnectTimer m |}.

Definition set_url (u : JsString) (m : Manager) : Manager :=
  {| socket := socket m; reconnectInterval := reconnectInterval m; url := u;
     reconnectTimer := reconnectTimer m |}.

Definition set_reconnectTimer (t : option nat) (m : Manager) : Manager :=
  {| socket := socket m; reconnectInterval := reconnectInterval m;
     url := url m; reconnectTimer := t |}.

Definition set_sockets (l : list ReadyState) (w : World) : World :=
  {| mgr := mgr w; sockets := l; timers := timers w;
     nextTimer := nextTimer w; url_usable := url_usable w |}.

Definition set_timers (l : list (nat * Z)) (w : World) : World :=
  {| mgr := mgr w; sockets := sockets w; timers := l;
     nextTimer := nextTimer w; url_usable := url_usable w |}.

Definition set_url_usable (b : bool) (w : World) : World :=
  {| mgr := mgr w; sockets := sockets w; timers := timers w;
     nextTimer := nextTimer w; url_usable := b |}.

(** *** A writer-state monad for method bodies *)

Definition Step : Type := World -> World * list Action.

Definition skip : Step := fun w => (w, []).

Definition act (a : Action) : Step := fun w => (w, [a]).

Definition modify (f : World -> World) : Step := fun w => (f w, []).

Definition seq (f g : Step) : Step := fun w =>
  let '(w1, a1) := f w in
  let '(w2, a2) := g w1 in
  (w2, a1 ++ a2).

Notation "f >> g" := (seq f g) (at level 62, right associativity).

(** *** The runtime: timers and sockets *)

Definition pending (t : nat) (w : World) : bool :=
  existsb (fun p => Nat.eqb (fst p) t) (timers w).

Definition unschedule (t : nat) (w : World) : World :=
  set_timers (filter (fun p => fst p ≠ t) (timers w)) w.

(** [setTimeout(callback, delay)] returns a fresh handle. *)
Definition setTimeout (delay : Z) : Step := fun w =>
  let t := nextTimer w in
  ({| mgr := set_reconnectTimer (Some t) (mgr w);
      sockets := sockets w;
      timers := timers w ++ [(t, delay)];
      nextTimer := S t;
      url_usable := url_usable w |},
   [SetTimeout t delay]).

(** [clearTimeout(handle)]; clearing a timer that already fired does
    nothing. *)
Definition clearTimeout (t : nat) : Step :=
  modify (unschedule t) >> act (ClearTimeout t).

Definition readyState (w : World) (s : nat) : option ReadyState :=
  sockets w !! s.

(** [this.socket = new WebSocket(this.url)].  When the constructor
    returns, the socket is stored and the four listeners [on_open],
    [on_close], [on_error] and [on_message] below are registered on it.
    When it throws (a [SyntaxError] for an address that is no URL it can
    use), nothing is assigned and the exception leaves [connect()]; this
    is the last statement [connect()] and its callers execute. *)
Definition new_WebSocket : Step := fun w =>
  if url_usable w then
    let s := length (sockets w) in
    ({| mgr := set_socket (Some s) (mgr w);
        sockets := sockets w ++ [CONNECTING];
        timers := timers w;
        nextTimer := nextTimer w;
        url_usable := url_usable w |},
     [NewWebSocket s (url (mgr w))])
  else (w, [Uncaught SyntaxError]).

(** [socket.close()] of the [ws] library: starts the closing handshake
    unless the socket is already closed. *)
Definition socket_close (s : nat) : Step := fun w =>
  (match readyState w s with
   | Some CLOSED | None => w
   | Some _ => set_sockets (<[s := CLOSING]> (sockets w)) w
   end,
   [SocketClose s]).

(** *** Methods *)

Definition setUrl (u : JsString) : Step :=
  modify (fun w => set_mgr (set_url u (mgr w)) w).

(** [this.socket && this.socket.readyState !== WebSocket.CLOSED] *)
Definition socket_in_use (w : World) : bool :=
  match socket (mgr w) with
  | Some s => bool_decide (readyState w s ≠ Some CLOSED)
  | None => false
  end.

(** [if (this.reconnectTimer) { clearTimeout(this.reconnectTimer);
    this.reconnectTimer = null; }], as written in both [connect] and
    [disconnect]. *)
Definition cancel_reconnectTimer : Step := fun w =>
  match reconnectTimer (mgr w) with
  | Some t =>
    (clearTimeout t >>
     modify (fun w => set_mgr (set_reconnectTimer None (mgr w)) w)) w
  | None => skip w
  end.

Definition connect : Step := fun w =>
  if socket_in_use w
  then act (ConsoleWarn "WebSocket is already connected or connecting.") w
  else (cancel_reconnectTimer >> new_WebSocket) w.

Definition reconnect : Step := fun w =>
  match reconnectTimer (mgr w) with
  | Some _ => skip w
  | None => setTimeout (reconnectInterval (mgr w)) w
  end.

(** [if (this.socket) { this.socket.close(); this.socket = null; }] *)
Definition close_socket : Step := fun w =>
  match socket (mgr w) with
  | Some s =>
    (socket_close s >>
     modify (fun w => set_mgr (set_socket None (mgr w)) w)) w
  | None => skip w
  end.

Definition disconnect : Step := close_socket >> cancel_reconnectTimer.

(** [this.socket && this.socket.readyState === WebSocket.OPEN] *)
Definition socket_open (w : World) : option nat :=
  match socket (mgr w) with
  | Some s => if bool_decide (readyState w s = Some OPEN) then Some s else None
  | None => None
  end.

Definition send (data : JsonValue) : Step := fun w =>
  match socket_open w with
  | Some s => act (SocketSend s data) w
  | None => act (ConsoleWarn "WebSocket is not connected.") w
  end.

(** The event name [processMessage] emits for a decoded message, following
    its chain of type guards. *)
Definition route (data : JsonValue) : Result (option string) :=
  b ← isFrequencyStateUpdate data;
  if b : bool then mret (Some "frequencyUpdate"%string) else
  b ← isRxBegin data;
  if b : bool then mret (Some "rxBegin"%string) else
  b ← isRxEnd data;
  if b : bool then mret (Some "rxEnd"%string) else
  b ← isTxBegin data;
  if b : bool then mret (Some "txBegin"%string) else
  b ← isTxEnd data;
  if b : bool then mret (Some "txEnd"%string) else
  mret None.

(** [console.log("received: %s", message)] *)
Definition received (message : JsString) : Action :=
  ConsoleLog "received: %s" [message].

Definition processMessage (message : JsString) : list Action * Result () :=
  match JSON_parse message with
  | None => ([received message], Throw SyntaxError)
  | Some data =>
    match route data with
    | Return (Some event) =>
      ([received message; Emit event (Some data)], Return ())
    | Return None => ([received message], Return ())
    | Throw e => ([received message], Throw e)
    end
  end.

(** *** Listeners *)

Definition on_open : Step :=
  act (ConsoleLog "WebSocket connection established." []) >>
  act (Emit "connected" None).

Definition on_close : Step :=
  act (ConsoleLog "WebSocket connection closed" []) >>
  act (Emit "disconnected" None) >>
  reconnect.

Definition on_error (err : SocketError) : Step :=
  (if bool_decide (code err = js "ECONNREFUSED")
   then act (ConsoleError
     "Unable to connect to TrackAudio, connection refused. TrackAudio probably isn't running." [])
   else act (ConsoleError "WebSocket error:" [message err])) >>
  reconnect.

(** An exception thrown by [processMessage] leaves the listener. *)
Definition on_message (message : JsString) : Step := fun w =>
  match processMessage message with
  | (actions, Return _) => (w, actions)
  | (actions, Throw e) => (w, actions ++ [Uncaught e])
  end.

Definition on_timeout : Step :=
  act (ConsoleLog "Attempting to reconnect..." []) >>
  connect.

(** *** Runs *)

(** What can happen to the manager: a call of one of its public methods, an
    event of one of its sockets (the [ws] library sets [readyState] before
    it calls the listener), or the expiry of a scheduled timer.  A call of
    [setUrl] comes with what the [ws] constructor will make of the new
    address. *)
Inductive Event : Type :=
| CallSetUrl (u : JsString) (usable : bool)
| CallConnect
| CallDisconnect
| CallSend (data : JsonValue)
| SocketOpened (s : nat)
| SocketClosed (s : nat)
| SocketFailed (s : nat) (err : SocketError)
| SocketMessage (s : nat) (message : JsString)
| TimerExpired (t : nat).

Definition set_readyState (s : nat) (r : ReadyState) : Step :=
  modify (fun w => set_sockets (<[s := r]> (sockets w)) w).

Definition on_socket (s : nat) (k : Step) : Step := fun w =>
  match readyState w s with
  | Some _ => k w
  | None => skip w
  end.

Definition handle (e : Event) : Step :=
  match e with
  | CallSetUrl u usable => setUrl u >> modify (set_url_usable usable)
  | CallConnect => connect
  | CallDisconnect => disconnect
  | CallSend data => send data
  | SocketOpened s => on_socket s (set_readyState s OPEN >> on_open)
  | SocketClosed s => on_socket s (set_readyState s CLOSED >> on_close)
  | SocketFailed s err =>
    on_socket s (set_readyState s CLOSING >> on_error err)
  | SocketMessage s message => on_socket s (on_message message)
  | TimerExpired t => fun w =>
    if pending t w then (modify (unschedule t) >> on_timeout) w else skip w
  end.

Fixpoint run (events : list Event) : Step :=
  match events with
  | [] => skip
  | e :: rest => handle e >> run rest
  end.

(** *** Predicates on worlds, steps and messages *)

(** Whatever is scheduled is the one timer [reconnectTimer] refers to. *)
Definition single_timer (w : World) : Prop :=
  match timers w with
  | [] => True
  | [(t, _)] => reconnectTimer (mgr w) = Some t
  | _ :: _ :: _ => False
  end.

Definition preserves (P : World -> Prop) (f : Step) : Prop :=
  forall w, P w -> P (f w).1.

Definition delay_of (a : Action) : option Z :=
  match a with
  | SetTimeout _ d => Some d
  | _ => None
  end.

(** The interval field and every scheduled timer carry the delay [d]. *)
Definition delay_is (d : Z) (w : World) : Prop :=
  reconnectInterval (mgr w) = d /\ Forall (fun p => p.2 = d) (timers w).

(** A step keeps it so, and every [setTimeout] call it makes is given the
    delay [d]. *)
Definition schedules_with (d : Z) (f : Step) : Prop :=
  forall w, delay_is d w ->
    delay_is d (f w).1 /\
    Forall (fun a => delay_of a = None \/ delay_of a = Some d) (f w).2.

(** The hosting process reaches the manager through its public methods
    only; the delay is configurable if some run makes the interval differ
    from its initial value. *)
Definition reconnectInterval_configurable : Prop :=
  exists events, reconnectInterval (mgr (run events initial).1) <> 1000 * 5.

(** The kinds [processMessage] tests for, with the event emitted for
    each. *)
Definition routes : list (string * string) :=
  [("kFrequencyStateUpdate", "frequencyUpdate"); ("kRxBegin", "rxBegin");
   ("kRxEnd", "rxEnd"); ("kTxBegin", "txBegin"); ("kTxEnd", "txEnd")]%string.

(** A decoded message is of a recognized kind if one of those guards
    accepts it. *)
Definition recognized (data : JsonValue) : Prop :=
  exists kind event,
    (kind, event) ∈ routes /\ has_type kind data = Return true.

(** The socket the manager refers to is one of those created. *)
Definition socket_valid (w : World) : Prop :=
  forall s, socket (mgr w) = Some s -> (s < length (sockets w))%nat.

(** The timer slot still holds the handle of a timer that is no longer
    scheduled. *)
Definition stale_handle (w : World) : Prop :=
  is_Some (reconnectTimer (mgr w)) /\ timers w = [].

(** The events that come from a socket, as opposed to method calls and
    timer expiries. *)
Definition from_socket (e : Event) : bool :=
  match e with
  | SocketOpened _ | SocketClosed _ | SocketFailed _ _ | SocketMessage _ _ =>
    true
  | CallSetUrl _ _ | CallConnect | CallDisconnect | CallSend _
  | TimerExpired _ => false
  end.

(** The calls that start or end a connection. *)
Definition lifecycle_call (e : Event) : bool :=
  match e with
  | CallConnect | CallDisconnect => true
  | _ => false
  end.

(** What a step does apart from writing to the console. *)
Definition is_console (a : Action) : bool :=
  match a with
  | ConsoleLog _ _ | ConsoleWarn _ | ConsoleError _ _ => true
  | _ => false
  end.

Definition effects (actions : list Action) : list Action :=
  filter (fun a => is_console a = false) actions.

Definition is_emit (a : Action) : bool :=
  match a with
  | Emit _ _ => true
  | _ => false
  end.

(** The two actions that start something: a timer or a socket. *)
Definition starts_something (a : Action) : bool :=
  match a with
  | SetTimeout _ _ | NewWebSocket _ _ => true
  | _ => false
  end.

End TrackAudio.

(** ** The ATIS letter controller ([AtisLetterController]) *)

Module AtisLetter.
Import Json.

Local Open Scope Z_scope.

(** The settings of the action, as far as the controller reads them; an
    absent property is [None]. *)
Record AtisLetterSettings : Type := {
  autoClear : option bool;
  callsign : option JsString;
  title : option JsString;
  showTitle : option bool;
  showLetter : option bool;
}.

(** The private fields the setters touch. *)
Record Controller : Type := {
  _autoClearTimeout : option nat;
  _isUnavailable : bool;
  _isUpdated : bool;
  _letter : option JsString;
  _settings : option AtisLetterSettings;
}.

Inductive Action : Type :=
| SetTimeout (t : nat) (delay : Z)
| ClearTimeout (t : nat)
| RefreshDisplay.

(** The controller and the timers it has scheduled. *)
Record World : Type := {
  ctl : Controller;
  timeouts : list (nat * Z);
  nextTimeout : nat;
}.

(** A method body: the world it leaves, what it did, and how it
    completed. *)
Definition Op : Type := World -> World * list Action * Result ().

Definition andThen (f g : Op) : Op := fun w =>
  match f w with
  | (w1, a1, Return _) => let '(w2, a2, r) := g w1 in (w2, a1 ++ a2, r)
  | (w1, a1, Throw e) => (w1, a1, Throw e)
  end.

Notation "f >> g" := (andThen f g) (at level 62, right associativity).

Definition nothing : Op := fun w => (w, [], Return ()).

Definition update (f : Controller -> Controller) : Op := fun w =>
  ({| ctl := f (ctl w); timeouts := timeouts w;
      nextTimeout := nextTimeout w |}, [], Return ()).

Definition throw (e : Exn) : Op := fun w => (w, [], Throw e).

Definition set_autoClearTimeout (t : option nat) (c : Controller)
  : Controller :=
  {| _autoClearTimeout := t; _isUnavailable := _isUnavailable c;
     _isUpdated := _isUpdated c; _letter := _letter c;
     _settings := _settings c |}.

Definition set__isUpdated (b : bool) (c : Controller) : Controller :=
  {| _autoClearTimeout := _autoClearTimeout c;
     _isUnavailable := _isUnavailable c;
     _isUpdated := b; _letter := _letter c; _settings := _settings c |}.

Definition set__letter (l : option JsString) (c : Controller) : Controller :=
  {| _autoClearTimeout := _autoClearTimeout c;
     _isUnavailable := _isUnavailable c;
     _isUpdated := _isUpdated c; _letter := l; _settings := _settings c |}.

(** [refreshDisplay] is debounced: a call only asks for a refresh. *)
Definition refreshDisplay : Op := fun w => (w, [RefreshDisplay], Return ()).

Definition clearTimeout (t : nat) : Op := fun w =>
  ({| ctl := ctl w;
      timeouts := filter (fun p => p.1 ≠ t) (timeouts w);
      nextTimeout := nextTimeout w |},
   [ClearTimeout t], Return ()).

(** [this._autoClearTimeout = setTimeout(callback, delay)] *)
Definition setTimeout (delay : Z) : Op := fun w =>
  let t := nextTimeout w in
  ({| ctl := set_autoClearTimeout (Some t) (ctl w);
      timeouts := timeouts w ++ [(t, delay)];
      nextTimeout := S t |},
   [SetTimeout t delay], Return ()).

(** [get settings()] throws while the settings are [null]. *)
Definition get_settings (c : Controller) : Result AtisLetterSettings :=
  match _settings c with
  | Some s => Return s
  | None => Throw (Error "Settings not initialized. This should never happen.")
  end.

(** [get autoClear()]: [this.settings.autoClear ?? true] *)
Definition get_autoClear (c : Controller) : Result bool :=
  s ← get_settings c; mret (default true (autoClear s)).

Definition get_isUpdated (c : Controller) : bool := _isUpdated c.

(** [set isUpdated(newValue)] *)
Definition set_isUpdated (newValue : bool) : Op :=
  (fun w =>
     match _autoClearTimeout (ctl w) with
     | Some t => (clearTimeout t >> update (set_autoClearTimeout None)) w
     | None => nothing w
     end) >>
  update (set__isUpdated newValue) >>
  (fun w =>
     if get_isUpdated (ctl w) then
       match get_autoClear (ctl w) with
       | Return true => setTimeout (1000 * 60 * 2) w
       | Return false => nothing w
       | Throw e => throw e w
       end
     else nothing w) >>
  refreshDisplay.

(** The callback of the auto-clear timer. *)
Definition on_autoClear : Op :=
  update (set_autoClearTimeout None) >> set_isUpdated false.

(** A string is truthy unless it is [undefined] or empty. *)
Definition truthy (l : option JsString) : bool :=
  match l with
  | Some (_ :: _) => true
  | Some [] | None => false
  end.

(** [set letter(newLetter)] *)
Definition set_letter (newLetter : option JsString) : Op :=
  (fun w =>
     if truthy (_letter (ctl w)) && truthy newLetter
        && negb (bool_decide (_letter (ctl w) = newLetter))
     then set_isUpdated true w
     else set_isUpdated false w) >>
  update (set__letter newLetter) >>
  refreshDisplay.

(** [reset()] *)
Definition reset : Op :=
  update (fun c =>
    {| _autoClearTimeout := _autoClearTimeout c; _isUnavailable := false;
       _isUpdated := false; _letter := None; _settings := _settings c |}) >>
  refreshDisplay.

(** A controller as its constructor leaves it. *)
Definition construct (settings : AtisLetterSettings) : World := {|
  ctl := {| _autoClearTimeout := None; _isUnavailable := false;
            _isUpdated := false; _letter := None;
            _settings := Some settings |};
  timeouts := [];
  nextTimeout := 0%nat;
|}.

Definition set__isUnavailable (b : bool) (c : Controller) : Controller :=
  {| _autoClearTimeout := _autoClearTimeout c; _isUnavailable := b;
     _isUpdated := _isUpdated c; _letter := _letter c;
     _settings := _settings c |}.

(** [set isUnavailable(newValue)] *)
Definition set_isUnavailable (newValue : bool) : Op := fun w =>
  if Bool.eqb (_isUnavailable (ctl w)) newValue then nothing w
  else (update (set__isUnavailable newValue) >> refreshDisplay) w.

(** *** Runs of a controller *)

(** What happens to a controller once constructed: an assignment to one of
    its properties, a call of [reset], or the expiry of a timer it
    scheduled. *)
Inductive Event : Type :=
| AssignLetter (newLetter : option JsString)
| AssignIsUpdated (newValue : bool)
| AssignIsUnavailable (newValue : bool)
| CallReset
| TimeoutExpired (t : nat).

Definition scheduled (t : nat) (w : World) : bool :=
  existsb (fun p => Nat.eqb p.1 t) (timeouts w).

Definition fire (t : nat) : Op := fun w =>
  ({| ctl := ctl w;
      timeouts := filter (fun p => p.1 ≠ t) (timeouts w);
      nextTimeout := nextTimeout w |}, [], Return ()).

Definition handle (e : Event) : Op :=
  match e with
  | AssignLetter newLetter => set_letter newLetter
  | AssignIsUpdated newValue => set_isUpdated newValue
  | AssignIsUnavailable newValue => set_isUnavailable newValue
  | CallReset => reset
  | TimeoutExpired t => fun w =>
    if scheduled t w then (fire t >> on_autoClear) w else nothing w
  end.

Fixpoint run (events : list Event) : Op :=
  match events with
  | [] => nothing
  | e :: rest => handle e >> run rest
  end.

(** Whatever is scheduled is the one timer [_autoClearTimeout] refers to,
    set for two minutes. *)
Definition one_timeout (w : World) : Prop :=
  match timeouts w with
  | [] => True
  | [(t, d)] => _autoClearTimeout (ctl w) = Some t /\ d = 120000
  | _ :: _ :: _ => False
  end.

(** The state a controller constructed with [settings] is in after
    [events]. *)
Definition after (settings : AtisLetterSettings) (events : list Event)
  : World :=
  (run events (construct settings)).1.1.

End AtisLetter.

(** ** The connection status controller ([controllers/trackAudioStatus.ts],
       [controllers/baseController.ts]) *)

Module TrackAudioStatus.
Import Json.

(** The settings of the action, as far as the controller reads them. *)
Record TrackAudioStatusSettings : Type := {
  title : option JsString;
  showTitle : option bool;
  connectedIconPath : option JsString;
  notConnectedIconPath : option JsString;
  voiceConnectedIconPath : option JsString;
}.

Definition defaultTemplatePath : JsString :=
  js "images/actions/trackAudioStatus/template.svg".

(** [StateColor] *)
Definition NOT_CONNECTED : JsString := js "white".
Definition CONNECTED : JsString := js "#5fcdfa".
Definition VOICE_CONNECTED : JsString := js "#060".

Section Controller.

(** What [utils/svg], [utils/utils] and [utils/titleBuilder] provide; they
    are not part of the files modelled here. *)
Variable Template : Type.
Variable compileSvg : JsString -> option Template.
Variable isSvg : option JsString -> bool.
Variable generateSvgForSetImage : option Template -> JsString -> JsString.
Variable stringOrUndefined : option JsString -> option JsString.
(** [new TitleBuilder()], one [push(text, show)], [join(separator)]. *)
Variable titleBuilder_join : option JsString -> bool -> JsString -> JsString.

Record Controller : Type := {
  _isConnected : bool;
  _isVoiceConnected : bool;
  _settings : TrackAudioStatusSettings;
  _notConnectedIconPath : option JsString;
  _connectedIconPath : option JsString;
  _voiceConnectedIconPath : option JsString;
  _compiledNotConnectedSvg : option Template;
  _compiledConnectedSvg : option Template;
  _compiledVoiceConnectedSvg : option Template;
}.

(** Calls made on the Stream Deck action. *)
Inductive Action : Type :=
| SetTitle (text : JsString)
| SetImage (image : option JsString).

Definition Op : Type := Controller -> Controller * list Action.

Definition andThen (f g : Op) : Op := fun c =>
  let '(c1, a1) := f c in
  let '(c2, a2) := g c1 in
  (c2, a1 ++ a2).

Notation "f >> g" := (andThen f g) (at level 62, right associativity).

Definition nothing : Op := fun c => (c, []).

(** *** [BaseController] *)

Definition setTitle (text : JsString) : Op := fun c => (c, [SetTitle text]).

Definition setImage (imagePath : option JsString) (template : option Template)
    (replacements : JsString) : Op := fun c =>
  if isSvg imagePath
  then (c, [SetImage (Some (generateSvgForSetImage template replacements))])
  else (c, [SetImage imagePath]).

(** *** Getters *)

Definition get_showTitle (c : Controller) : bool :=
  default false (showTitle (_settings c)).

Definition get_title (c : Controller) : option JsString :=
  title (_settings c).

Definition get_notConnectedIconPath (c : Controller) : JsString :=
  default defaultTemplatePath (_notConnectedIconPath c).

Definition get_connectedIconPath (c : Controller) : JsString :=
  default defaultTemplatePath (_connectedIconPath c).

Definition get_voiceConnectedIconPath (c : Controller) : JsString :=
  default defaultTemplatePath (_voiceConnectedIconPath c).

(** *** Display *)

Definition refreshTitle : Op := fun c =>
  setTitle (titleBuilder_join (get_title c) (get_showTitle c) [10%N]) c.

Definition refreshImage : Op := fun c =>
  if _isVoiceConnected c then
    setImage (Some (get_voiceConnectedIconPath c))
      (_compiledVoiceConnectedSvg c) VOICE_CONNECTED c
  else if _isConnected c then
    setImage (Some (get_connectedIconPath c))
      (_compiledConnectedSvg c) CONNECTED c
  else
    setImage (Some (get_notConnectedIconPath c))
      (_compiledNotConnectedSvg c) NOT_CONNECTED c.

(** *** Setters *)

Definition with_compiledNotConnectedSvg (t : option Template) (c : Controller)
  : Controller :=
  {| _isConnected := _isConnected c;
     _isVoiceConnected := _isVoiceConnected c;
     _settings := _settings c;
     _notConnectedIconPath := _notConnectedIconPath c;
     _connectedIconPath := _connectedIconPath c;
     _voiceConnectedIconPath := _voiceConnectedIconPath c;
     _compiledNotConnectedSvg := t;
     _compiledConnectedSvg := _compiledConnectedSvg c;
     _compiledVoiceConnectedSvg := _compiledVoiceConnectedSvg c |}.

Definition with_compiledConnectedSvg (t : option Template) (c : Controller)
  : Controller :=
  {| _isConnected := _isConnected c;
     _isVoiceConnected := _isVoiceConnected c;
     _settings := _settings c;
     _notConnectedIconPath := _notConnectedIconPath c;
     _connectedIconPath := _connectedIconPath c;
     _voiceConnectedIconPath := _voiceConnectedIconPath c;
     _compiledNotConnectedSvg := _compiledNotConnectedSvg c;
     _compiledConnectedSvg := t;
     _compiledVoiceConnectedSvg := _compiledVoiceConnectedSvg c |}.

Definition with_compiledVoiceConnectedSvg (t : option Template)
    (c : Controller) : Controller :=
  {| _isConnected := _isConnected c;
     _isVoiceConnected := _isVoiceConnected c;
     _settings := _settings c;
     _notConnectedIconPath := _notConnectedIconPath c;
     _connectedIconPath := _connectedIconPath c;
     _voiceConnectedIconPath := _voiceConnectedIconPath c;
     _compiledNotConnectedSvg := _compiledNotConnectedSvg c;
     _compiledConnectedSvg := _compiledConnectedSvg c;
     _compiledVoiceConnectedSvg := t |}.

Definition with_settings (s : TrackAudioStatusSettings) (c : Controller)
  : Controller :=
  {| _isConnected := _isConnected c;
     _isVoiceConnected := _isVoiceConnected c;
     _settings := s;
     _notConnectedIconPath := _notConnectedIconPath c;
     _connectedIconPath := _connectedIconPath c;
     _voiceConnectedIconPath := _voiceConnectedIconPath c;
     _compiledNotConnectedSvg := _compiledNotConnectedSvg c;
     _compiledConnectedSvg := _compiledConnectedSvg c;
     _compiledVoiceConnectedSvg := _compiledVoiceConnectedSvg c |}.

Definition with_flags (connected voice : bool) (c : Controller)
  : Controller :=
  {| _isConnected := connected;
     _isVoiceConnected := voice;
     _settings := _settings c;
     _notConnectedIconPath := _notConnectedIconPath c;
     _connectedIconPath := _connectedIconPath c;
     _voiceConnectedIconPath := _voiceConnectedIconPath c;
     _compiledNotConnectedSvg := _compiledNotConnectedSvg c;
     _compiledConnectedSvg := _compiledConnectedSvg c;
     _compiledVoiceConnectedSvg := _compiledVoiceConnectedSvg c |}.

(** [!compiled || this.path !== newValue] *)
Definition must_compile (compiled : option Template) (path : JsString)
    (newValue : option JsString) : bool :=
  negb (bool_decide (is_Some compiled))
  || negb (bool_decide (Some path = newValue)).

(** [set notConnectedIconPath(newValue)]; the private path field is not
    assigned. *)
Definition set_notConnectedIconPath (newValue : option JsString) : Op :=
  fun c =>
  if must_compile (_compiledNotConnectedSvg c) (get_notConnectedIconPath c)
       newValue
  then (with_compiledNotConnectedSvg
          (compileSvg (default defaultTemplatePath newValue)) c, [])
  else (c, []).

Definition set_connectedIconPath (newValue : option JsString) : Op :=
  fun c =>
  if must_compile (_compiledConnectedSvg c) (get_connectedIconPath c)
       newValue
  then (with_compiledConnectedSvg
          (compileSvg (default defaultTemplatePath newValue)) c, [])
  else (c, []).

Definition set_voiceConnectedIconPath (newValue : option JsString) : Op :=
  fun c =>
  if must_compile (_compiledVoiceConnectedSvg c)
       (get_voiceConnectedIconPath c) newValue
  then (with_compiledVoiceConnectedSvg
          (compileSvg (default defaultTemplatePath newValue)) c, [])
  else (c, []).

Definition set_settings (newValue : TrackAudioStatusSettings) : Op :=
  (fun c => (with_settings newValue c, [])) >>
  set_connectedIconPath (stringOrUndefined (connectedIconPath newValue)) >>
  set_notConnectedIconPath
    (stringOrUndefined (notConnectedIconPath newValue)) >>
  set_voiceConnectedIconPath
    (stringOrUndefined (voiceConnectedIconPath newValue)) >>
  refreshTitle >>
  refreshImage.

Definition set_isVoiceConnected (newValue : bool) : Op := fun c =>
  if Bool.eqb (_isVoiceConnected c) newValue then nothing c
  else
    ((fun c => (with_flags (_isConnected c) newValue c, [])) >>
     refreshTitle >> refreshImage) c.

Definition set_isConnected (newValue : bool) : Op := fun c =>
  if Bool.eqb (_isConnected c) newValue then nothing c
  else
    ((fun c => (with_flags newValue (_isVoiceConnected c) c, [])) >>
     (fun c => if negb newValue
               then (with_flags (_isConnected c) false c, [])
               else nothing c) >>
     refreshImage) c.

Definition reset : Op := set_isConnected false >> set_isVoiceConnected false.

(** The constructor: the field initializers, then [this.settings =
    settings], [refreshTitle()] and [refreshImage()]. *)
Definition construct (settings : TrackAudioStatusSettings)
  : Controller * list Action :=
  (set_settings settings >> refreshTitle >> refreshImage)
    {| _isConnected := false; _isVoiceConnected := false;
       _settings := settings;
       _notConnectedIconPath := None; _connectedIconPath := None;
       _voiceConnectedIconPath := None;
       _compiledNotConnectedSvg := None; _compiledConnectedSvg := None;
       _compiledVoiceConnectedSvg := None |}.

(** *** Runs *)

Inductive Event : Type :=
| AssignSettings (newValue : TrackAudioStatusSettings)
| AssignIsConnected (newValue : bool)
| AssignIsVoiceConnected (newValue : bool)
| CallReset.

Definition handle (e : Event) : Op :=
  match e with
  | AssignSettings newValue => set_settings newValue
  | AssignIsConnected newValue => set_isConnected newValue
  | AssignIsVoiceConnected newValue => set_isVoiceConnected newValue
  | CallReset => reset
  end.

Fixpoint run (events : list Event) : Op :=
  match events with
  | [] => nothing
  | e :: rest => handle e >> run rest
  end.

(** The image [refreshImage] hands to the action for the template
    [template] and the colour [colour], the path being the default one. *)
Definition default_image (template : option Template) (colour : JsString)
  : Action :=
  if isSvg (Some defaultTemplatePath)
  then SetImage (Some (generateSvgForSetImage template colour))
  else SetImage (Some defaultTemplatePath).

End Controller.

Arguments _isConnected {Template} c.
Arguments _isVoiceConnected {Template} c.
Arguments _settings {Template} c.
Arguments _compiledNotConnectedSvg {Template} c.
Arguments _compiledConnectedSvg {Template} c.
Arguments _compiledVoiceConnectedSvg {Template} c.
Arguments get_notConnectedIconPath {Template} c.
Arguments get_connectedIconPath {Template} c.
Arguments get_voiceConnectedIconPath {Template} c.

End TrackAudioStatus.

(** ** The VATSIM poller ([VatsimManager]) *)

Module Vatsim.
Import Json.

Local Open Scope Z_scope.

Record Manager : Type := {
  intervalId : option nat;
}.

(** The manager and the intervals of the runtime that are active. *)
Record World : Type := {
  mgr : Manager;
  intervals : list (nat * Z);
  nextInterval : nat;
}.

Definition initial : World :=
  {| mgr := {| intervalId := None |}; intervals := []; nextInterval := 0 |}.

Inductive Action : Type :=
| AxiosGet (address : string)
| SetInterval (id : nat) (ms : Z)
| ClearInterval (id : nat)
| Emit (event : string) (data : JsonValue)
| ConsoleError (text : string).

Definition Step : Type := World -> World * list Action.

Definition skip : Step := fun w => (w, []).

Definition act (a : Action) : Step := fun w => (w, [a]).

Definition seq (f g : Step) : Step := fun w =>
  let '(w1, a1) := f w in
  let '(w2, a2) := g w1 in
  (w2, a1 ++ a2).

Notation "f >> g" := (seq f g) (at level 62, right associativity).

(** [clearInterval(id)] *)
Definition clearInterval (id : nat) : Step := fun w =>
  ({| mgr := mgr w;
      intervals := filter (fun p => p.1 ≠ id) (intervals w);
      nextInterval := nextInterval w |},
   [ClearInterval id]).

(** [this.intervalId = setInterval(callback, ms)] *)
Definition setInterval (ms : Z) : Step := fun w =>
  let id := nextInterval w in
  ({| mgr := {| intervalId := Some id |};
      intervals := intervals w ++ [(id, ms)];
      nextInterval := S id |},
   [SetInterval id ms]).

(** [fetchData()] up to its [await]: the request is sent. *)
Definition fetchData : Step :=
  act (AxiosGet "https://data.vatsim.net/v3/vatsim-data.json").

(** [fetchData()] after its [await]: the response is emitted, a failure is
    logged. *)
Definition fetchData_resolved (data : JsonValue) : Step :=
  act (Emit "vatsimDataReceived" data).

Definition fetchData_rejected : Step :=
  act (ConsoleError "Error fetching VATSIM data: ").

(** [stop()]; the handle is left in [intervalId]. *)
Definition stop : Step := fun w =>
  match intervalId (mgr w) with
  | Some id => clearInterval id w
  | None => skip w
  end.

Definition start (intervalInMs : Z) : Step :=
  stop >> fetchData >> setInterval intervalInMs.

Definition default_interval : Z := 300000.

(** [refresh()]: [this.stop(); this.start();] *)
Definition refresh : Step := stop >> start default_interval.

Inductive Event : Type :=
| CallStart (intervalInMs : option Z)
| CallStop
| CallRefresh
| Tick (id : nat)
| Resolved (data : JsonValue)
| Rejected.

Definition active (id : nat) (w : World) : bool :=
  existsb (fun p => Nat.eqb p.1 id) (intervals w).

Definition handle (e : Event) : Step :=
  match e with
  | CallStart intervalInMs => start (default default_interval intervalInMs)
  | CallStop => stop
  | CallRefresh => refresh
  | Tick id => fun w => if active id w then fetchData w else skip w
  | Resolved data => fetchData_resolved data
  | Rejected => fetchData_rejected
  end.

Fixpoint run (events : list Event) : Step :=
  match events with
  | [] => skip
  | e :: rest => handle e >> run rest
  end.

(** Whatever is active is the one interval [intervalId] refers to. *)
Definition one_interval (w : World) : Prop :=
  match intervals w with
  | [] => True
  | [(id, _)] => intervalId (mgr w) = Some id
  | _ :: _ :: _ => False
  end.

Definition is_request (a : Action) : bool :=
  match a with
  | AxiosGet _ => true
  | _ => false
  end.

End Vatsim.

(** ** The SVG template cache ([SvgTemplateManager]) *)

Module SvgTemplates.
Import Json.

Local Open Scope Z_scope.

Section Manager.

(** What the runtime and the libraries provide: [path.extname],
    [String.prototype.toLowerCase], [path.normalize], [Handlebars.compile],
    the application of a compiled template to a view (which may throw), and
    the base64 text of a string. *)
Variable extname : JsString -> JsString.
Variable toLowerCase : JsString -> JsString.
Variable normalize : JsString -> JsString.
Variable Template View : Type.
Variable compile : JsString -> Template.
Variable apply_template : Template -> View -> Result JsString.
Variable base64 : JsString -> JsString.

Record TemplateInfo : Type := {
  compiledTemplate : option Template;
  lastModified : Z;
}.

(** The manager ([templates], and the paths its watcher watches) and the
    disk: what [fs.statSync] and [fs.readFileSync] answer for a path,
    [None] when they throw. *)
Record World : Type := {
  templates : gmap JsString TemplateInfo;
  watched : gset JsString;
  mtime : JsString -> option Z;
  content : JsString -> option JsString;
}.

Inductive Action : Type :=
| StatSync (filePath : JsString)
| ReadFileSync (filePath : JsString)
| WatcherAdd (filePath : JsString)
| ConsoleError.

(** [SvgTemplateManager.isSvg] *)
Definition isSvg (filePath : option JsString) : bool :=
  match filePath with
  | Some p => bool_decide (toLowerCase (extname p) = js ".svg")
  | None => false
  end.

Definition cacheTemplate (filePath : JsString) (w : World)
  : World * list Action * option Template :=
  if negb (isSvg (Some filePath)) then (w, [], None)
  else
    match mtime w filePath with
    | None => (w, [StatSync filePath; ConsoleError], None)
    | Some modified =>
      match content w filePath with
      | None =>
        (w, [StatSync filePath; ReadFileSync filePath; ConsoleError], None)
      | Some templateContent =>
        let compiledTemplate := compile templateContent in
        ({| templates :=
              <[filePath := {| compiledTemplate := Some compiledTemplate;
                               lastModified := modified |}]> (templates w);
            watched := {[filePath]} ∪ watched w;
            mtime := mtime w;
            content := content w |},
         [StatSync filePath; ReadFileSync filePath; WatcherAdd filePath],
         Some compiledTemplate)
      end
    end.

(** [!filePath] *)
Definition falsy (filePath : option JsString) : bool :=
  match filePath with
  | Some (_ :: _) => false
  | Some [] | None => true
  end.

Definition getTemplate (filePath : option JsString) (w : World)
  : World * list Action * option Template :=
  match filePath with
  | Some p =>
    if falsy filePath then (w, [], None)
    else
      match templates w !! p ≫= compiledTemplate with
      | Some t => (w, [], Some t)
      | None => cacheTemplate p w
      end
  | None => (w, [], None)
  end.

Definition data_uri (renderedSvg : JsString) : JsString :=
  js "data:image/svg+xml;base64," ++ base64 renderedSvg.

Definition renderSvg (filePath : JsString) (view : View) (w : World)
  : World * list Action * Result (option JsString) :=
  let '(w', actions, template) := getTemplate (Some filePath) w in
  match template with
  | None => (w', actions, Return None)
  | Some t =>
    (w', actions,
     renderedSvg ← apply_template t view; mret (Some (data_uri renderedSvg)))
  end.

Definition reset (w : World) : World :=
  {| templates := ∅; watched := watched w; mtime := mtime w;
     content := content w |}.

(** [.replace(/\\/g, "/")] *)
Definition slashes (filePath : JsString) : JsString :=
  map (fun c => if (c =? 92)%N then 47%N else c) filePath.

(** The listener of the watcher's ["change"] event. *)
Definition on_change (filePath : JsString) (w : World)
  : World * list Action :=
  (cacheTemplate (slashes (normalize filePath)) w).1.

(** The manager as constructed, on a given disk. *)
Definition construct (stat : JsString -> option Z)
    (read : JsString -> option JsString) : World :=
  {| templates := ∅; watched := ∅; mtime := stat; content := read |}.

(** *** Runs *)

(** Calls of the manager, events of its watcher, and changes of the disk
    made by others. *)
Inductive Event : Type :=
| CallRenderSvg (filePath : JsString) (view : View)
| CallReset
| WatcherChange (filePath : JsString)
| DiskChange (stat : JsString -> option Z)
    (read : JsString -> option JsString).

Definition handle (e : Event) (w : World) : World * list Action :=
  match e with
  | CallRenderSvg filePath view => (renderSvg filePath view w).1
  | CallReset => (reset w, [])
  | WatcherChange filePath => on_change filePath w
  | DiskChange stat read =>
    ({| templates := templates w; watched := watched w;
        mtime := stat; content := read |}, [])
  end.

Fixpoint run (events : list Event) (w : World) : World * list Action :=
  match events with
  | [] => (w, [])
  | e :: rest =>
    let '(w1, a1) := handle e w in
    let '(w2, a2) := run rest w1 in
    (w2, a1 ++ a2)
  end.

End Manager.

End SvgTemplates.

(** * Properties *)

(** ** [JSON.parse] stays within its recursion budget *)

Module JsonProps.
Import Json.

Lemma consumes_mono {A} (s s' : JsString) (p : Parse A) :
  (length s <= length s')%nat -> consumes s p -> consumes s' p.
Proof. destruct p; simpl; [lia | done | done]. Qed.

Lemma skip_ws_length s : (length (skip_ws s) <= length s)%nat.
Proof.
  induction s as [|c s IH]; simpl; [done |].
  destruct (is_ws c); simpl; lia.
Qed.

Lemma skip_ws_cons s c rest :
  skip_ws s = c :: rest -> (length rest < length s)%nat.
Proof.
  intros H. pose proof (skip_ws_length s) as Hl.
  rewrite H in Hl. simpl in Hl. lia.
Qed.

Lemma strip_prefix_length p s rest :
  strip_prefix p s = Some rest -> (length rest + length p = length s)%nat.
Proof.
  revert s. induction p as [|a p IH]; intros [|b s]; simpl; try done.
  - intros [= <-]. simpl. lia.
  - intros [= <-]. simpl. lia.
  - destruct (a =? b); [| done]. intros H%IH. lia.
Qed.

Lemma parse_literal_consumes lit v s :
  lit <> ""%string -> consumes s (parse_literal lit v s).
Proof.
  intros Hlit. unfold parse_literal.
  destruct (strip_prefix (js lit) s) as [rest|] eqn:E; simpl; [| done].
  apply strip_prefix_length in E. destruct lit; [done |].
  simpl in E. lia.
Qed.

Lemma parse_chars_consumes s acc : consumes s (parse_chars s acc).
Proof.
  remember (length s) as n eqn:Hn. revert s acc Hn.
  induction n as [n IH] using lt_wf_ind. intros s acc ->.
  destruct s as [|c rest]; simpl; [done |].
  destruct (c =? 34); simpl; [lia |].
  destruct (c =? 92).
  - destruct rest as [|e rest1]; [done |].
    destruct (e =? 117).
    + destruct rest1 as [|h1 [|h2 [|h3 [|h4 rest2]]]]; try done.
      destruct (hex4 h1 h2 h3 h4) as [u|]; [| done].
      eapply consumes_mono; [| eapply (IH (length rest2)); [| done]];
        simpl; lia.
    + destruct (unescape e) as [u|]; [| done].
      eapply consumes_mono; [| eapply (IH (length rest1)); [| done]];
        simpl; lia.
  - destruct (c <? 32); [done |].
    eapply consumes_mono; [| eapply (IH (length rest)); [| done]];
      simpl; lia.
Qed.

Lemma span_digits_length s ds r :
  span_digits s = (ds, r) -> (length r <= length s)%nat.
Proof.
  revert ds r. induction s as [|c s IH]; simpl; intros ds r.
  - intros [= <- <-]. done.
  - destruct (is_digit c).
    + destruct (span_digits s) as [ds' r'] eqn:E. intros [= <- <-].
      specialize (IH _ _ eq_refl). lia.
    + intros [= <- <-]. simpl. lia.
Qed.

Lemma parse_number_consumes s : consumes s (parse_number s).
Proof.
  unfold parse_number.
  destruct (match s with
            | [] => ([], s)
            | c :: rest => if c =? 45 then ([c], rest) else ([], s)
            end) as [sign s1] eqn:Hsign.
  assert (length s1 <= length s)%nat as H1.
  { destruct s as [|c rest]; [by injection Hsign as <- <- |].
    destruct (c =? 45); injection Hsign as <- <-; simpl; lia. }
  assert (match parse_int s1 with
          | Parsed _ s2 => (length s2 < length s1)%nat
          | SyntaxErr => True
          | OutOfFuel => False
          end) as H2.
  { unfold parse_int. destruct s1 as [|c rest]; [done |].
    destruct (c =? 48); simpl; [lia |].
    destruct (is_digit c); [| done].
    destruct (span_digits rest) as [ds r] eqn:E.
    apply span_digits_length in E. simpl. lia. }
  destruct (parse_int s1) as [i s2| |]; [| done | done].
  assert (match parse_frac s2 with
          | Parsed _ s3 => (length s3 <= length s2)%nat
          | SyntaxErr => True
          | OutOfFuel => False
          end) as H3.
  { unfold parse_frac. destruct s2 as [|c rest]; [done |].
    destruct (c =? 46); [| done].
    destruct (span_digits rest) as [ds r] eqn:E.
    apply span_digits_length in E. destruct ds; simpl; [done | lia]. }
  destruct (parse_frac s2) as [f s3| |]; [| done | done].
  assert (match parse_exp s3 with
          | Parsed _ s4 => (length s4 <= length s3)%nat
          | SyntaxErr => True
          | OutOfFuel => False
          end) as H4.
  { unfold parse_exp. destruct s3 as [|c rest]; [done |].
    destruct ((c =? 101) || (c =? 69)); [| done].
    destruct (match rest with
              | [] => ([], rest)
              | g :: rest' =>
                if (g =? 43) || (g =? 45) then ([g], rest') else ([], rest)
              end) as [sg rest1] eqn:Hsg.
    assert (length rest1 <= length rest)%nat.
    { destruct rest as [|g rest']; [by injection Hsg as <- <- |].
      destruct ((g =? 43) || (g =? 45)); injection Hsg as <- <-; simpl; lia. }
    destruct (span_digits rest1) as [ds r] eqn:E.
    apply span_digits_length in E. destruct ds; simpl; [done | lia]. }
  destruct (parse_exp s3) as [e s4| |]; [| done | done].
  simpl. lia.
Qed.

Lemma parse_consumes (fuel : nat) :
  (forall s, (2 * length s < fuel)%nat -> consumes s (parse_value fuel s)) /\
  (forall s acc, (2 * length s + 1 < fuel)%nat ->
     consumes s (parse_elements fuel s acc)) /\
  (forall s acc, (2 * length s + 1 < fuel)%nat ->
     consumes s (parse_members fuel s acc)).
Proof.
  induction fuel as [|fuel (IHv & IHe & IHm)]; [repeat split; intros; lia |].
  split; [| split].
  - intros s Hs. simpl.
    destruct (skip_ws s) as [|c rest] eqn:E; [done |].
    apply skip_ws_cons in E.
    destruct (start_of c).
    + destruct (skip_ws rest) as [|d rest1] eqn:E1; [done |].
      apply skip_ws_cons in E1. destruct (d =? 125); simpl; [lia |].
      eapply consumes_mono; [| apply IHm]; lia.
    + destruct (skip_ws rest) as [|d rest1] eqn:E1; [done |].
      apply skip_ws_cons in E1. destruct (d =? 93); simpl; [lia |].
      eapply consumes_mono; [| apply IHe]; lia.
    + pose proof (parse_chars_consumes rest []) as H.
      destruct (parse_chars rest []); simpl in *; [lia | done | done].
    + eapply consumes_mono; [| by apply parse_literal_consumes]. simpl; lia.
    + eapply consumes_mono; [| by apply parse_literal_consumes]. simpl; lia.
    + eapply consumes_mono; [| by apply parse_literal_consumes]. simpl; lia.
    + pose proof (parse_number_consumes (c :: rest)) as H.
      destruct (parse_number (c :: rest)); simpl in *; [lia | done | done].
  - intros s acc Hs. simpl.
    pose proof (IHv s ltac:(lia)) as Hv.
    destruct (parse_value fuel s) as [v rest| |]; simpl in Hv; [| done | done].
    destruct (skip_ws rest) as [|d rest1] eqn:E; [done |].
    apply skip_ws_cons in E.
    destruct (d =? 44).
    + eapply consumes_mono; [| apply IHe]; lia.
    + destruct (d =? 93); simpl; [lia | done].
  - intros s acc Hs. simpl.
    destruct (skip_ws s) as [|q rest] eqn:E; [done |].
    apply skip_ws_cons in E. destruct (q =? 34); [| done].
    pose proof (parse_chars_consumes rest []) as Hk.
    destruct (parse_chars rest []) as [key rest1| |]; simpl in Hk;
      [| done | done].
    destruct (skip_ws rest1) as [|colon rest2] eqn:E1; [done |].
    apply skip_ws_cons in E1. destruct (colon =? 58); [| done].
    pose proof (IHv rest2 ltac:(lia)) as Hv.
    destruct (parse_value fuel rest2) as [v rest3| |]; simpl in Hv;
      [| done | done].
    destruct (skip_ws rest3) as [|d rest4] eqn:E3; [done |].
    apply skip_ws_cons in E3.
    destruct (d =? 44).
    + eapply consumes_mono; [| apply IHm]; lia.
    + destruct (d =? 125); simpl; [lia | done].
Qed.

(** [JSON_parse] answers [None] for a syntax error only. *)
Lemma parse_value_within_budget (text : JsString) :
  parse_value (fuel_for text) text <> OutOfFuel.
Proof.
  destruct (parse_consumes (fuel_for text)) as [H _].
  specialize (H text ltac:(unfold fuel_for; lia)).
  by destruct (parse_value (fuel_for text) text).
Qed.

End JsonProps.

(** ** The connection manager *)

Module TrackAudioProps.
Import Json Messages TrackAudio.

Local Open Scope Z_scope.

(** *** The single-timer invariant *)

Lemma seq_world (f g : Step) w : ((f >> g) w).1 = (g (f w).1).1.
Proof. unfold seq. destruct (f w) as [w1 a1]. simpl. by destruct (g w1). Qed.

Lemma seq_actions (f g : Step) w :
  ((f >> g) w).2 = (f w).2 ++ (g (f w).1).2.
Proof. unfold seq. destruct (f w) as [w1 a1]. simpl. by destruct (g w1). Qed.

Lemma preserves_seq P f g :
  preserves P f -> preserves P g -> preserves P (f >> g).
Proof. intros Hf Hg w Hw. rewrite seq_world. by apply Hg, Hf. Qed.

Lemma preserves_act P a : preserves P (act a).
Proof. by intros w Hw. Qed.

Lemma preserves_skip P : preserves P skip.
Proof. by intros w Hw. Qed.

Lemma single_timer_no_timers w : timers w = [] -> single_timer w.
Proof. unfold single_timer. by intros ->. Qed.

Lemma cancel_world w :
  single_timer w ->
  (cancel_reconnectTimer w).1 =
  {| mgr := set_reconnectTimer None (mgr w); sockets := sockets w;
     timers := []; nextTimer := nextTimer w; url_usable := url_usable w |}.
Proof.
  unfold single_timer, cancel_reconnectTimer. intros Hw.
  destruct w as [[so ri u rt] ss ts nt ok]; simpl in *.
  destruct rt as [t|]; simpl.
  - destruct ts as [|[t' d] [|? ?]]; simpl in *; try done.
    injection Hw as ->. unfold unschedule, set_mgr, set_timers; simpl.
    rewrite filter_cons_False; [done | simpl; tauto].
  - destruct ts as [|[t' d] [|? ?]]; simpl in *; done.
Qed.

Lemma cancel_actions w :
  (cancel_reconnectTimer w).2 =
  match reconnectTimer (mgr w) with
  | Some t => [ClearTimeout t]
  | None => []
  end.
Proof. unfold cancel_reconnectTimer. by destruct (reconnectTimer (mgr w)). Qed.

Lemma single_timer_cancel : preserves single_timer cancel_reconnectTimer.
Proof. intros w Hw. by rewrite cancel_world. Qed.

Lemma single_timer_sockets w l :
  single_timer w -> single_timer (set_sockets l w).
Proof. done. Qed.

Lemma single_timer_connect : preserves single_timer connect.
Proof.
  intros w Hw. unfold connect. destruct (socket_in_use w); [done |].
  rewrite seq_world, cancel_world by done. unfold new_WebSocket; simpl.
  by destruct (url_usable w).
Qed.

Lemma single_timer_reconnect : preserves single_timer reconnect.
Proof.
  intros [[so ri u rt] ss ts nt ok] Hw. unfold reconnect, single_timer in *.
  simpl in *. destruct rt as [t0|]; simpl; [done |].
  destruct ts as [|[t d] [|? ?]]; simpl in *; done.
Qed.

Lemma single_timer_disconnect : preserves single_timer disconnect.
Proof.
  apply preserves_seq; [| apply single_timer_cancel].
  intros w Hw. unfold close_socket.
  destruct (socket (mgr w)) as [s|]; [| done].
  rewrite seq_world. unfold socket_close; simpl.
  by destruct (readyState w s) as [[]|].
Qed.

Lemma single_timer_send data : preserves single_timer (send data).
Proof. intros w Hw. unfold send. by destruct (socket_open w). Qed.

Lemma single_timer_on_message m : preserves single_timer (on_message m).
Proof.
  intros w Hw. unfold on_message. by destruct (processMessage m) as [? [|]].
Qed.

Lemma single_timer_unschedule t w :
  single_timer w -> single_timer (unschedule t w).
Proof.
  unfold single_timer, unschedule; simpl.
  destruct (timers w) as [|[t' d] [|? ?]]; try done.
  intros Hw. rewrite filter_cons. case_decide; simpl; done.
Qed.

Lemma single_timer_handle e : preserves single_timer (handle e).
Proof.
  destruct e; simpl.
  - by intros w Hw.
  - apply single_timer_connect.
  - apply single_timer_disconnect.
  - apply single_timer_send.
  - intros w Hw. unfold on_socket. destruct (readyState w s); [| done].
    by rewrite !seq_world.
  - intros w Hw. unfold on_socket, on_close.
    destruct (readyState w s); [| done].
    rewrite !seq_world. by apply single_timer_reconnect.
  - intros w Hw. unfold on_socket, on_error.
    destruct (readyState w s); [| done].
    rewrite !seq_world. apply single_timer_reconnect.
    by destruct (bool_decide _).
  - intros w Hw. unfold on_socket. destruct (readyState w s); [| done].
    by apply single_timer_on_message.
  - intros w Hw. destruct (pending t w); [| done].
    unfold on_timeout. rewrite !seq_world. apply single_timer_connect.
    by apply single_timer_unschedule.
Qed.

Lemma single_timer_run events : preserves single_timer (run events).
Proof.
  induction events as [|e events IH]; [apply preserves_skip |].
  apply preserves_seq; [apply single_timer_handle | done].
Qed.

Lemma single_timer_reachable events : single_timer (run events initial).1.
Proof. by apply single_timer_run. Qed.

(** C1: along every run of the manager (method calls, socket events and
    timer expiries in any order) at most one reconnect timer is scheduled,
    and a [reconnect()] made while one is scheduled is dropped: it changes
    nothing and schedules nothing. *)
Theorem at_most_one_reconnect_timer (events : list Event) :
  let w := (run events initial).1 in
  (length (timers w) <= 1)%nat /\
  (timers w <> [] -> reconnect w = (w, [])).
Proof.
  pose proof (single_timer_reachable events) as Hw. simpl.
  set (w := (run events initial).1) in *. unfold single_timer in Hw.
  split.
  - destruct (timers w) as [|[t d] [|? ?]]; simpl; [lia | lia | done].
  - intros Hne. unfold reconnect.
    destruct (timers w) as [|[t d] [|? ?]]; [done | | done].
    by rewrite Hw.
Qed.

Lemma at_most_one_reconnect_timer_witness :
  let refused := {| code := js "ECONNREFUSED";
                    message := js "connect ECONNREFUSED 127.0.0.1:49080" |} in
  let w := (run [CallConnect; SocketFailed 0 refused] initial).1 in
  timers w <> [] /\ reconnect w = (w, []).
Proof.
  pose proof (at_most_one_reconnect_timer
    [CallConnect;
     SocketFailed 0 {| code := js "ECONNREFUSED";
                       message := js "connect ECONNREFUSED 127.0.0.1:49080" |}])
    as [_ H].
  split; [discriminate | apply H; discriminate].
Defined.

(** C2: [disconnect()] itself leaves no timer behind, but the socket it
    closed still reports its closure to the ["close"] listener, which calls
    [reconnect()] unconditionally: with no [connect()] call after the
    [disconnect()], a reconnect timer is scheduled again, and when it
    expires a new socket is opened. *)
Theorem disconnect_then_close_schedules_reconnect :
  let before := [CallConnect; SocketOpened 0; CallDisconnect] in
  let w1 := (run before initial).1 in
  let w2 := (run (before ++ [SocketClosed 0]) initial).1 in
  let w3 := (run (before ++ [SocketClosed 0; TimerExpired 0]) initial).1 in
  (socket (mgr w1) = None /\ timers w1 = []) /\
  (timers w2 = [(0%nat, 5000)] /\ reconnectTimer (mgr w2) = Some 0%nat) /\
  (socket (mgr w3) = Some 1%nat /\ readyState w3 1 = Some CONNECTING).
Proof. vm_compute. done. Qed.

(** Right after [disconnect()] nothing is scheduled and no socket is
    referred to. *)
Lemma disconnect_clears w :
  single_timer w ->
  let w' := (disconnect w).1 in
  socket (mgr w') = None /\ reconnectTimer (mgr w') = None /\ timers w' = [].
Proof.
  intros Hw. unfold disconnect. rewrite seq_world.
  set (w1 := (close_socket w).1).
  assert (single_timer w1 /\ socket (mgr w1) = None) as [H1 Hs].
  { subst w1. unfold close_socket.
    destruct (socket (mgr w)) as [s|] eqn:Hso; [| done].
    rewrite seq_world. unfold socket_close; simpl.
    by destruct (readyState w s) as [[]|]. }
  by rewrite cancel_world.
Qed.

(** C5: [connect()] on a manager whose socket exists and is not [CLOSED]
    only prints a warning: the manager, the table of sockets and the timers
    are what they were, and no socket is created. *)
Theorem connect_is_noop_when_socket_in_use (w : World) (s : nat)
    (r : ReadyState) :
  socket (mgr w) = Some s ->
  readyState w s = Some r ->
  r <> CLOSED ->
  connect w
  = (w, [ConsoleWarn "WebSocket is already connected or connecting."]).
Proof.
  intros Hs Hr Hne. unfold connect, socket_in_use. rewrite Hs, Hr.
  rewrite bool_decide_eq_true_2; [done | congruence].
Qed.

Lemma connect_is_noop_when_socket_in_use_witness :
  let w := (run [CallConnect] initial).1 in
  socket (mgr w) = Some 0%nat /\ readyState w 0 = Some CONNECTING /\
  connect w
  = (w, [ConsoleWarn "WebSocket is already connected or connecting."]).
Proof.
  split; [reflexivity |]. split; [reflexivity |].
  apply (connect_is_noop_when_socket_in_use _ 0%nat CONNECTING);
    [reflexivity | reflexivity | discriminate].
Defined.

(** C6: [send(data)] on a manager whose socket is absent or not [OPEN] only
    prints a warning: nothing is handed to a socket, nothing is kept for
    later, nothing is thrown, and the manager is unchanged. *)
Theorem send_is_noop_when_not_open (w : World) (data : JsonValue) :
  (socket (mgr w) = None \/
   exists s, socket (mgr w) = Some s /\ readyState w s <> Some OPEN) ->
  send data w = (w, [ConsoleWarn "WebSocket is not connected."]).
Proof.
  intros H. unfold send, socket_open.
  destruct H as [-> | (s & -> & Hne)]; [done |].
  by rewrite bool_decide_eq_false_2.
Qed.

Lemma send_is_noop_when_not_open_witness :
  let w := (run [CallConnect] initial).1 in
  let data := JObject [(js "type", JString (js "kGetStationStates"))] in
  send data w = (w, [ConsoleWarn "WebSocket is not connected."]).
Proof.
  apply send_is_noop_when_not_open. right. exists 0%nat.
  split; [reflexivity | discriminate].
Defined.

(** *** The reconnect delay *)

Lemma schedules_with_seq d f g :
  schedules_with d f -> schedules_with d g -> schedules_with d (f >> g).
Proof.
  intros Hf Hg w Hw. rewrite seq_world, seq_actions.
  destruct (Hf w Hw) as [H1 H2]. destruct (Hg _ H1) as [H3 H4].
  split; [done | by apply Forall_app].
Qed.

Lemma schedules_with_act d a : delay_of a = None -> schedules_with d (act a).
Proof. intros Ha w Hw. split; [done |]. apply Forall_singleton. by left. Qed.

Lemma schedules_with_skip d : schedules_with d skip.
Proof. intros w Hw. split; [done | constructor]. Qed.

Lemma delay_is_unschedule d t w : delay_is d w -> delay_is d (unschedule t w).
Proof.
  intros [H1 H2]. split; [done |]. simpl.
  induction H2 as [|p l Hp Hl IH]; [constructor |].
  rewrite filter_cons. case_decide; [by constructor | done].
Qed.

Lemma schedules_with_cancel d : schedules_with d cancel_reconnectTimer.
Proof.
  intros w Hw. unfold cancel_reconnectTimer.
  destruct (reconnectTimer (mgr w)) as [t|]; [| by apply schedules_with_skip].
  split.
  - rewrite !seq_world. simpl. by apply (delay_is_unschedule d t w).
  - apply Forall_singleton. by left.
Qed.

Lemma schedules_with_connect d : schedules_with d connect.
Proof.
  intros w Hw. unfold connect. destruct (socket_in_use w).
  - by apply schedules_with_act.
  - apply schedules_with_seq; [apply schedules_with_cancel | | done].
    intros w1 H1. unfold new_WebSocket.
    destruct (url_usable w1); (split; [done |]); apply Forall_singleton;
      by left.
Qed.

Lemma schedules_with_reconnect d : schedules_with d reconnect.
Proof.
  intros w [H1 H2]. unfold reconnect.
  destruct (reconnectTimer (mgr w)); [by apply schedules_with_skip |].
  split; [split |]; simpl.
  - done.
  - apply Forall_app. split; [done |]. by apply Forall_singleton.
  - apply Forall_singleton. right. by rewrite H1.
Qed.

Lemma schedules_with_disconnect d : schedules_with d disconnect.
Proof.
  apply schedules_with_seq; [| apply schedules_with_cancel].
  intros w Hw. unfold close_socket.
  destruct (socket (mgr w)) as [s|]; [| by apply schedules_with_skip].
  split.
  - rewrite seq_world. unfold socket_close; simpl.
    by destruct (readyState w s) as [[]|].
  - apply Forall_singleton. by left.
Qed.

Lemma schedules_with_send d data : schedules_with d (send data).
Proof.
  intros w Hw. unfold send.
  destruct (socket_open w); by apply schedules_with_act.
Qed.

Lemma schedules_with_on_message d m : schedules_with d (on_message m).
Proof.
  intros w Hw. unfold on_message, processMessage.
  destruct (JSON_parse m) as [data|]; [destruct (route data) as [[ev|]|e] |];
    (split; [done |]); repeat (constructor; [by left |]); constructor.
Qed.

Lemma schedules_with_on_socket d s k :
  schedules_with d k -> schedules_with d (on_socket s k).
Proof.
  intros Hk w Hw. unfold on_socket.
  destruct (readyState w s); [by apply Hk | by apply schedules_with_skip].
Qed.

Lemma schedules_with_set_readyState d s r :
  schedules_with d (set_readyState s r).
Proof. intros w Hw. split; [done | constructor]. Qed.

Lemma schedules_with_handle d e : schedules_with d (handle e).
Proof.
  destruct e; simpl.
  - intros w Hw. split; [done | constructor].
  - apply schedules_with_connect.
  - apply schedules_with_disconnect.
  - apply schedules_with_send.
  - apply schedules_with_on_socket.
    repeat (apply schedules_with_seq || apply schedules_with_set_readyState
            || by apply schedules_with_act).
  - apply schedules_with_on_socket.
    repeat (apply schedules_with_seq || apply schedules_with_set_readyState
            || apply schedules_with_reconnect || by apply schedules_with_act).
  - apply schedules_with_on_socket.
    repeat (apply schedules_with_seq || apply schedules_with_set_readyState
            || apply schedules_with_reconnect).
    destruct (bool_decide _); by apply schedules_with_act.
  - apply schedules_with_on_socket, schedules_with_on_message.
  - intros w Hw. destruct (pending t w); [| by apply schedules_with_skip].
    revert w Hw.
    repeat (apply schedules_with_seq || apply schedules_with_connect
            || by apply schedules_with_act).
    intros w Hw. split; [by apply delay_is_unschedule | constructor].
Qed.

Lemma schedules_with_run d events : schedules_with d (run events).
Proof.
  induction events as [|e events IH]; [apply schedules_with_skip |].
  apply schedules_with_seq; [apply schedules_with_handle | done].
Qed.

(** C8, as stated: no method of the manager sets [reconnectInterval]. *)
Lemma reconnectInterval_not_configurable : ~ reconnectInterval_configurable.
Proof.
  intros [events H]. apply H.
  by destruct (schedules_with_run 5000 events initial) as [[? ?] ?].
Qed.

(** C8, amended: the delay is the constant 5000 ms; along every run the
    interval field keeps that value, and every timer that is scheduled, and
    every [setTimeout] call made, carries exactly that delay. *)
Theorem reconnect_delay_is_5000 (events : list Event) :
  let r := run events initial in
  reconnectInterval (mgr r.1) = 5000 /\
  (forall t d, (t, d) ∈ timers r.1 -> d = 5000) /\
  (forall t d, SetTimeout t d ∈ r.2 -> d = 5000).
Proof.
  destruct (schedules_with_run 5000 events initial) as [[H1 H2] H3]; [done |].
  simpl. split; [done |]. split.
  - intros t d Hin. rewrite Forall_forall in H2. by apply (H2 (t, d)).
  - intros t d Hin. rewrite Forall_forall in H3.
    destruct (H3 _ Hin) as [H | H]; simpl in H; congruence.
Qed.

(** *** [connect()] and the pending timer *)

Lemma socket_in_use_false w :
  (socket (mgr w) = None \/
   exists s, socket (mgr w) = Some s /\ readyState w s = Some CLOSED) ->
  socket_in_use w = false.
Proof.
  unfold socket_in_use. intros [-> | (s & -> & Hr)]; [done |].
  rewrite bool_decide_eq_false_2; [done | tauto].
Qed.

(** C9: in every reachable state in which the socket is absent or
    [CLOSED], [connect()] cancels the reconnect timer, if there is one,
    before it calls the constructor; afterwards the timer slot is empty
    and no timer is scheduled, so no timer is left beside the connection
    attempt.  When the constructor returns, the new socket is the one in
    use and is connecting; when it throws, the exception leaves
    [connect()] and the socket field is what it was. *)
Theorem connect_cancels_pending_reconnect (events : list Event) :
  let w := (run events initial).1 in
  (socket (mgr w) = None \/
   exists s, socket (mgr w) = Some s /\ readyState w s = Some CLOSED) ->
  let r := connect w in
  reconnectTimer (mgr r.1) = None /\
  timers r.1 = [] /\
  r.2 = match reconnectTimer (mgr w) with
        | Some t => [ClearTimeout t]
        | None => []
        end ++
        (if url_usable w
         then [NewWebSocket (length (sockets w)) (url (mgr w))]
         else [Uncaught SyntaxError]) /\
  (url_usable w = true ->
   socket (mgr r.1) = Some (length (sockets w)) /\
   readyState r.1 (length (sockets w)) = Some CONNECTING) /\
  (url_usable w = false ->
   socket (mgr r.1) = socket (mgr w) /\ sockets r.1 = sockets w).
Proof.
  intros w Hs r. pose proof (single_timer_reachable events) as Hw.
  fold w in Hw. subst r. unfold connect.
  rewrite (socket_in_use_false w Hs), seq_world, seq_actions.
  rewrite cancel_world, cancel_actions by done.
  unfold new_WebSocket. simpl. destruct (url_usable w); simpl.
  - repeat split; try done.
    unfold readyState; simpl. by rewrite lookup_app_r, Nat.sub_diag.
  - repeat split; done.
Qed.

Lemma connect_cancels_pending_reconnect_witness :
  let w := (run [CallConnect; SocketClosed 0] initial).1 in
  let r := connect w in
  timers w = [(0%nat, 5000)] /\
  readyState w 0 = Some CLOSED /\
  reconnectTimer (mgr r.1) = None /\ timers r.1 = [] /\
  r.2 = [ClearTimeout 0; NewWebSocket 1 (js "ws://localhost:49080/ws")].
Proof.
  pose proof (connect_cancels_pending_reconnect
                [CallConnect; SocketClosed 0]) as H.
  destruct H as (H1 & H2 & H3 & _).
  { right. exists 0%nat. split; reflexivity. }
  split; [reflexivity |]. split; [reflexivity |].
  split; [exact H1 |]. split; [exact H2 | exact H3].
Defined.

(** *** Inbound frames *)

Ltac in_routes :=
  unfold routes; rewrite !elem_of_cons;
  solve [repeat first [left; reflexivity | right]].

Lemma has_type_true kind data :
  has_type kind data = Return true ->
  exists members,
    data = JObject members /\
    own_property (js "type") members = Some (JString (js kind)).
Proof.
  destruct data as [| | | | |members]; try discriminate.
  intros H. exists members. split; [done |].
  unfold has_type in H; simpl in H. injection H as H.
  unfold is_literal in H.
  destruct (own_property _ members) as [[| | |s| |]|]; try discriminate.
  by apply bool_decide_eq_true in H as ->.
Qed.

Lemma route_recognized kind event data :
  (kind, event) ∈ routes ->
  has_type kind data = Return true ->
  route data = Return (Some event).
Proof.
  intros Hin (members & -> & Hty)%has_type_true.
  unfold route, isFrequencyStateUpdate, isRxBegin, isRxEnd, isTxBegin,
    isTxEnd, has_type; simpl. rewrite Hty.
  unfold routes in Hin. rewrite !elem_of_cons, elem_of_nil in Hin.
  destruct Hin as [H|[H|[H|[H|[H|[]]]]]]; injection H as -> ->;
    by vm_compute.
Qed.

Lemma route_unrecognized data :
  data <> JNull -> ~ recognized data -> route data = Return None.
Proof.
  intros Hnull Hun.
  assert (forall kind event, (kind, event) ∈ routes ->
            has_type kind data = Return false) as H.
  { intros kind event Hin. destruct (has_type kind data) as [[]|e] eqn:E.
    - destruct Hun. by exists kind, event.
    - done.
    - by destruct data. }
  unfold route, isFrequencyStateUpdate, isRxBegin, isRxEnd, isTxBegin,
    isTxEnd.
  rewrite (H "kFrequencyStateUpdate" "frequencyUpdate")%string; simpl.
  2: { in_routes. }
  rewrite (H "kRxBegin" "rxBegin")%string; simpl.
  2: { in_routes. }
  rewrite (H "kRxEnd" "rxEnd")%string; simpl.
  2: { in_routes. }
  rewrite (H "kTxBegin" "txBegin")%string; simpl.
  2: { in_routes. }
  rewrite (H "kTxEnd" "txEnd")%string; simpl.
  2: { in_routes. }
  done.
Qed.

Lemma route_null : route JNull = Throw TypeError.
Proof. reflexivity. Qed.

(** C3, as stated: a frame that is not JSON makes [JSON.parse] throw, and
    nothing in [processMessage] or in the listener catches it. *)
Lemma processMessage_throws_on_malformed_frame :
  processMessage (js "not json")
  = ([received (js "not json")], Throw SyntaxError) /\
  (on_message (js "not json") initial).2
  = [received (js "not json"); Uncaught SyntaxError].
Proof. split; reflexivity. Qed.

(** C3, amended: [processMessage] throws exactly on the frames [JSON.parse]
    rejects (a [SyntaxError]) and on the frames that decode to [null] (a
    [TypeError] from the first type guard), and the exception leaves the
    listener; on every other frame it returns.  In no case does it change
    the manager, its sockets or its timers. *)
Theorem processMessage_completion (message : JsString) :
  (processMessage message).2 =
  match JSON_parse message with
  | None => Throw SyntaxError
  | Some JNull => Throw TypeError
  | Some _ => Return ()
  end /\
  (forall e, (processMessage message).2 = Throw e ->
     forall w, Uncaught e ∈ (on_message message w).2) /\
  (forall w, (on_message message w).1 = w).
Proof.
  split; [| split].
  - unfold processMessage. destruct (JSON_parse message) as [data|]; [| done].
    destruct data as [| | | | |members]; try done.
    assert (exists r, route (JObject members) = Return r) as [r ->].
    { unfold route, isFrequencyStateUpdate, isRxBegin, isRxEnd, isTxBegin,
        isTxEnd, has_type; simpl.
      repeat (destruct (is_literal _ _); simpl; eauto). }
    by destruct r.
  - intros e He w. unfold on_message.
    destruct (processMessage message) as [actions [[]|e']]; simpl in *;
      [done |]. injection He as ->.
    apply elem_of_app. right. by apply list_elem_of_singleton.
  - intros w. unfold on_message.
    by destruct (processMessage message) as [actions [[]|e']].
Qed.

(** C7, as stated: the frame [null] is valid JSON of no recognized kind,
    and [processMessage] throws on it. *)
Lemma processMessage_throws_on_null_frame :
  JSON_parse (js "null") = Some JNull /\
  ~ recognized JNull /\
  (processMessage (js "null")).2 = Throw TypeError.
Proof.
  split; [reflexivity |]. split; [| reflexivity].
  by intros (kind & event & _ & H).
Qed.

(** C7, amended: a frame that decodes to anything but [null] and is of no
    recognized kind is logged and dropped: [processMessage] returns and
    emits nothing. *)
Theorem unrecognized_frame_is_dropped (message : JsString)
    (data : JsonValue) :
  JSON_parse message = Some data ->
  data <> JNull ->
  ~ recognized data ->
  processMessage message = ([received message], Return ()).
Proof.
  intros Hparse Hnull Hun. unfold processMessage.
  by rewrite Hparse, (route_unrecognized data).
Qed.

Lemma unrecognized_frame_is_dropped_witness :
  let message := frame "{'type':'kVoiceConnectedState','value':{}}" in
  processMessage message = ([received message], Return ()).
Proof.
  apply (unrecognized_frame_is_dropped _
    (JObject [(js "type", JString (js "kVoiceConnectedState"));
              (js "value", JObject [])])).
  - reflexivity.
  - discriminate.
  - intros (kind & event & Hin & H). apply has_type_true in H.
    destruct H as (members & [= <-] & H). injection H as H.
    unfold routes in Hin. rewrite !elem_of_cons, elem_of_nil in Hin.
    destruct Hin as [Hk|[Hk|[Hk|[Hk|[Hk|[]]]]]]; injection Hk as -> ->;
      discriminate H.
Defined.

(** C4, as stated: station-state frames are decoded, but [processMessage]
    has no branch for them and emits nothing. *)
Lemma station_state_frames_are_not_routed :
  let single := frame
    "{'type':'kStationStateUpdate','value':{'callsign':'DAL123','frequency':121500000,'tx':false,'rx':true,'xc':false,'headset':true}}" in
  let several := frame
    "{'type':'kStationStates','value':{'stations':[{'type':'kStationStateUpdate','value':{'callsign':'DAL123','frequency':121500000,'tx':false,'rx':true,'xc':false,'headset':true}}]}}" in
  (isStationStateUpdate <$> JSON_parse single) = Some (Return true) /\
  (isStationStates <$> JSON_parse several) = Some (Return true) /\
  processMessage single = ([received single], Return ()) /\
  processMessage several = ([received several], Return ()).
Proof. vm_compute. done. Qed.

(** C4, amended: a decoded [kStationStateUpdate] or [kStationStates]
    message is logged and dropped without an event; the messages routed
    onward are those of the five kinds of [routes], each emitted once under
    its event name with the decoded message as payload. *)
Theorem station_state_messages_are_dropped (message : JsString)
    (data : JsonValue) :
  JSON_parse message = Some data ->
  (isStationStateUpdate data = Return true \/
   isStationStates data = Return true ->
   processMessage message = ([received message], Return ())) /\
  (forall kind event, (kind, event) ∈ routes ->
   has_type kind data = Return true ->
   processMessage message
   = ([received message; Emit event (Some data)], Return ())).
Proof.
  intros Hparse. unfold processMessage. rewrite Hparse. split.
  - intros H. rewrite (route_unrecognized data); [done | |].
    + destruct H as [H | H]; by destruct data.
    + intros (kind & event & Hin & Hk). apply has_type_true in Hk.
      destruct Hk as (members & -> & Hk).
      assert (has_type "kStationStateUpdate" (JObject members) = Return true
              \/ has_type "kStationStates" (JObject members) = Return true)
        as H' by exact H.
      unfold has_type in H'; simpl in H'. rewrite Hk in H'.
      unfold routes in Hin. rewrite !elem_of_cons, elem_of_nil in Hin.
      destruct Hin as [E|[E|[E|[E|[E|[]]]]]]; injection E as -> ->;
        destruct H' as [H' | H']; discriminate H'.
  - intros kind event Hin Hk. by rewrite (route_recognized kind event).
Qed.

Lemma station_state_messages_are_dropped_witness :
  let message := frame "{'type':'kStationStates','value':{'stations':[]}}" in
  processMessage message = ([received message], Return ()).
Proof.
  pose proof (station_state_messages_are_dropped
    (frame "{'type':'kStationStates','value':{'stations':[]}}")
    (JObject [(js "type", JString (js "kStationStates"));
              (js "value", JObject [(js "stations", JArray [])])])
    eq_refl) as [H _].
  apply H. right. reflexivity.
Defined.

(** *** Further properties of the manager *)

Lemma run_app_world e1 e2 w :
  (run (e1 ++ e2) w).1 = (run e2 (run e1 w).1).1.
Proof.
  revert w. induction e1 as [|e e1 IH]; intros w; simpl; [done |].
  by rewrite !seq_world, IH.
Qed.

Lemma run_app_actions e1 e2 w :
  (run (e1 ++ e2) w).2 = (run e1 w).2 ++ (run e2 (run e1 w).1).2.
Proof.
  revert w. induction e1 as [|e e1 IH]; intros w; simpl; [done |].
  by rewrite !seq_actions, !seq_world, IH, app_assoc.
Qed.

Lemma cancel_keeps_socket w :
  socket (mgr (cancel_reconnectTimer w).1) = socket (mgr w) /\
  sockets (cancel_reconnectTimer w).1 = sockets w.
Proof. unfold cancel_reconnectTimer. by destruct (reconnectTimer (mgr w)). Qed.

Lemma socket_valid_reconnect : preserves socket_valid reconnect.
Proof.
  intros w Hw. unfold reconnect. by destruct (reconnectTimer (mgr w)).
Qed.

Lemma socket_valid_connect : preserves socket_valid connect.
Proof.
  intros w Hw. unfold connect. destruct (socket_in_use w); [done |].
  rewrite seq_world. destruct (cancel_keeps_socket w) as [Hso Hss].
  unfold new_WebSocket. destruct (url_usable _).
  - intros s. simpl. rewrite Hss, length_app. intros [= <-]. simpl. lia.
  - intros s. simpl. rewrite Hso, Hss. apply Hw.
Qed.

Lemma socket_valid_disconnect : preserves socket_valid disconnect.
Proof.
  intros w Hw s. unfold disconnect. rewrite seq_world.
  destruct (cancel_keeps_socket (close_socket w).1) as [-> _].
  unfold close_socket. destruct (socket (mgr w)) as [s'|] eqn:E.
  - by rewrite seq_world.
  - simpl. by rewrite E.
Qed.

Lemma socket_valid_set_readyState s r w :
  socket_valid w -> socket_valid (set_readyState s r w).1.
Proof. intros Hw s'. simpl. rewrite length_insert. apply Hw. Qed.

Lemma socket_valid_handle e : preserves socket_valid (handle e).
Proof.
  destruct e; simpl.
  - by intros w Hw.
  - apply socket_valid_connect.
  - apply socket_valid_disconnect.
  - intros w Hw. unfold send. by destruct (socket_open w).
  - intros w Hw. unfold on_socket, on_open.
    destruct (readyState w s); [| done].
    rewrite !seq_world. by apply socket_valid_set_readyState.
  - intros w Hw. unfold on_socket, on_close.
    destruct (readyState w s); [| done].
    rewrite !seq_world. by apply socket_valid_reconnect,
      socket_valid_set_readyState.
  - intros w Hw. unfold on_socket, on_error.
    destruct (readyState w s); [| done].
    rewrite !seq_world. apply socket_valid_reconnect.
    destruct (bool_decide _); by apply socket_valid_set_readyState.
  - intros w Hw. unfold on_socket, on_message.
    destruct (readyState w s); [| done].
    by destruct (processMessage message0) as [? [|]].
  - intros w Hw. destruct (pending t w); [| done].
    unfold on_timeout. rewrite !seq_world. by apply socket_valid_connect.
Qed.

Lemma socket_valid_reachable events : socket_valid (run events initial).1.
Proof.
  assert (preserves socket_valid (run events)) as H.
  { induction events as [|e events IH]; [apply preserves_skip |].
    apply preserves_seq; [apply socket_valid_handle | done]. }
  apply H. by intros s.
Qed.

(** When the socket in use closes while the timer slot is empty, one
    reconnect timer is scheduled, and when it expires the slot is cleared
    and the constructor is called with the current address.  If it returns,
    the new socket is the one in use and is connecting.  If it throws, the
    exception leaves the timer callback, and the manager is left with the
    closed socket, an empty slot and nothing scheduled: it does not try
    again. *)
Theorem close_then_expiry_reconnects (events : list Event) (s : nat) :
  let w := (run events initial).1 in
  socket (mgr w) = Some s ->
  reconnectTimer (mgr w) = None ->
  let t := nextTimer w in
  let r := run [SocketClosed s; TimerExpired t] w in
  effects r.2 = [Emit "disconnected" None; SetTimeout t 5000; ClearTimeout t]
                ++ (if url_usable w
                    then [NewWebSocket (length (sockets w)) (url (mgr w))]
                    else [Uncaught SyntaxError]) /\
  timers r.1 = [] /\ reconnectTimer (mgr r.1) = None /\
  (url_usable w = true ->
   socket (mgr r.1) = Some (length (sockets w)) /\
   readyState r.1 (length (sockets w)) = Some CONNECTING) /\
  (url_usable w = false ->
   socket (mgr r.1) = Some s /\ readyState r.1 s = Some CLOSED /\
   length (sockets r.1) = length (sockets w)).
Proof.
  intros w Hs Hrt t r.
  pose proof (single_timer_reachable events) as Hst.
  pose proof (socket_valid_reachable events s Hs) as Hv.
  destruct (schedules_with_run 5000 events initial) as [[Hd _] _]; [done |].
  fold w in Hst, Hv, Hd. subst r t. revert Hs Hrt Hst Hv Hd. generalize w.
  clear w. intros [[so ri u rt] ss ts nt ok]. cbn -[run].
  intros -> -> Hst Hv ->. unfold single_timer in Hst; simpl in Hst.
  destruct ts as [|[t d] [|? ?]]; try done. clear Hst.
  destruct (lookup_lt_is_Some_2 ss s Hv) as [r0 Hr0].
  match goal with |- context [run ?es ?w0] =>
    assert (run es w0
            = (if ok then
                 {| mgr := {| socket := Some (length ss);
                              reconnectInterval := 5000; url := u;
                              reconnectTimer := None |};
                    sockets := <[s := CLOSED]> ss ++ [CONNECTING];
                    timers := []; nextTimer := S nt; url_usable := ok |}
               else
                 {| mgr := {| socket := Some s;
                              reconnectInterval := 5000; url := u;
                              reconnectTimer := None |};
                    sockets := <[s := CLOSED]> ss;
                    timers := []; nextTimer := S nt; url_usable := ok |},
               [ConsoleLog "WebSocket connection closed" [];
                Emit "disconnected" None; SetTimeout nt 5000;
                ConsoleLog "Attempting to reconnect..." [];
                ClearTimeout nt;
                if ok then NewWebSocket (length ss) u
                else Uncaught SyntaxError])) as ->
  end.
  { unfold run, handle, on_socket, readyState, seq, set_readyState, on_close,
      modify, act, reconnect, setTimeout, skip, pending.
    simpl. rewrite Hr0. simpl. rewrite Nat.eqb_refl. simpl.
    unfold unschedule, on_timeout, connect, socket_in_use, readyState, seq,
      act, modify. simpl.
    rewrite filter_cons_False by (simpl; tauto). rewrite filter_nil.
    rewrite list_lookup_insert_eq by done.
    rewrite bool_decide_eq_false_2 by tauto.
    unfold cancel_reconnectTimer, clearTimeout, new_WebSocket, seq, modify,
      act, unschedule. simpl.
    destruct ok; simpl; by rewrite ?length_insert. }
  destruct ok; simpl.
  - repeat split; try done.
    unfold readyState; simpl.
    by rewrite lookup_app_r, length_insert, Nat.sub_diag
      by (rewrite length_insert; lia).
  - repeat split; try done.
    + unfold readyState; simpl. by rewrite list_lookup_insert_eq.
    + by rewrite length_insert.
Qed.

Lemma close_then_expiry_reconnects_witness :
  let r := run [SocketClosed 0; TimerExpired 0]
               (run [CallConnect; SocketOpened 0] initial).1 in
  effects r.2 = [Emit "disconnected" None; SetTimeout 0 5000; ClearTimeout 0;
                 NewWebSocket 1 (js "ws://localhost:49080/ws")] /\
  timers r.1 = [] /\ socket (mgr r.1) = Some 1%nat.
Proof.
  pose proof (close_then_expiry_reconnects [CallConnect; SocketOpened 0] 0%nat
                eq_refl eq_refl) as (H1 & H2 & _ & H4 & _).
  split; [exact H1 |]. split; [exact H2 |]. by apply H4.
Defined.

Lemma stale_handle_handle w e :
  stale_handle w -> lifecycle_call e = false ->
  stale_handle (handle e w).1 /\
  Forall (fun a => starts_something a = false) (handle e w).2.
Proof.
  intros [[t Ht] Hts] He.
  destruct w as [[so ri u rt] ss ts nt ok]; simpl in Ht, Hts; subst rt ts.
  assert (forall so' ss' nt' ok',
    stale_handle {| mgr := {| socket := so'; reconnectInterval := ri;
                              url := u; reconnectTimer := Some t |};
                    sockets := ss'; timers := []; nextTimer := nt';
                    url_usable := ok' |}) as Hst.
  { intros. split; [by eexists | done]. }
  destruct e; try discriminate He; simpl.
  - split; [apply Hst | constructor].
  - unfold send, socket_open; simpl.
    destruct so as [s|]; [destruct (bool_decide _) |]; simpl;
      (split; [apply Hst | by repeat constructor]).
  - unfold on_socket, readyState; simpl. destruct (ss !! s); simpl;
      (split; [apply Hst | by repeat constructor]).
  - unfold on_socket, readyState; simpl. destruct (ss !! s); simpl;
      (split; [apply Hst | by repeat constructor]).
  - unfold on_socket, readyState; simpl. destruct (ss !! s); simpl;
      [| split; [apply Hst | by repeat constructor]].
    unfold on_error. destruct (bool_decide _); simpl;
      (split; [apply Hst | by repeat constructor]).
  - unfold on_socket, readyState, on_message, processMessage; simpl.
    destruct (ss !! s); simpl; [| split; [apply Hst | by repeat constructor]].
    destruct (JSON_parse message0) as [data|];
      [destruct (route data) as [[ev|]|e] |]; simpl;
      (split; [apply Hst | by repeat constructor]).
  - split; [apply Hst | constructor].
Qed.

(** Once the timer slot holds the handle of a timer that is no longer
    scheduled, no socket event, timer expiry, [send] or [setUrl] schedules
    a timer or opens a socket again: only [connect()] or [disconnect()]
    gets the manager out of that state. *)
Theorem stale_handle_blocks_reconnection (w : World) (events : list Event) :
  stale_handle w ->
  Forall (fun e => lifecycle_call e = false) events ->
  stale_handle (run events w).1 /\
  Forall (fun a => starts_something a = false) (run events w).2.
Proof.
  intros Hw Hev. revert w Hw.
  induction Hev as [|e events He Hev IH]; intros w Hw; simpl.
  - split; [done | constructor].
  - rewrite seq_world, seq_actions.
    destruct (stale_handle_handle w e Hw He) as [H1 H2].
    destruct (IH _ H1) as [H3 H4]. split; [done | by apply Forall_app].
Qed.

Lemma stale_handle_blocks_reconnection_witness :
  let w := (run [CallConnect; SocketOpened 0; CallDisconnect; CallConnect;
                 SocketClosed 0; TimerExpired 0] initial).1 in
  let r := run [SocketOpened 1; SocketClosed 1] w in
  stale_handle w /\
  readyState r.1 1 = Some CLOSED /\ timers r.1 = [] /\
  Forall (fun a => starts_something a = false) r.2.
Proof.
  assert (stale_handle
    (run [CallConnect; SocketOpened 0; CallDisconnect; CallConnect;
          SocketClosed 0; TimerExpired 0] initial).1) as Hw.
  { split; [by eexists | reflexivity]. }
  split; [exact Hw |].
  destruct (stale_handle_blocks_reconnection _ [SocketOpened 1; SocketClosed 1]
              Hw) as [[_ H1] H2].
  { repeat constructor. }
  split; [reflexivity |]. split; [exact H1 | exact H2].
Defined.

Lemma disconnect_idle w :
  socket (mgr w) = None -> reconnectTimer (mgr w) = None ->
  disconnect w = (w, []).
Proof.
  intros Hs Ht. unfold disconnect, seq, close_socket, cancel_reconnectTimer.
  rewrite Hs. simpl. by rewrite Ht.
Qed.

(** In every reachable state [disconnect()] closes the socket in use, if
    any, clears the reconnect timer, if any, and leaves the manager without
    socket, timer handle or scheduled timer; a second [disconnect()] does
    nothing. *)
Theorem disconnect_releases_everything (events : list Event) :
  let w := (run events initial).1 in
  let r := disconnect w in
  r.2 = match socket (mgr w) with Some s => [SocketClose s] | None => [] end
        ++ match reconnectTimer (mgr w) with
           | Some t => [ClearTimeout t]
           | None => []
           end /\
  socket (mgr r.1) = None /\ reconnectTimer (mgr r.1) = None /\
  timers r.1 = [] /\
  disconnect r.1 = (r.1, []).
Proof.
  intros w r. pose proof (single_timer_reachable events) as Hst. fold w in Hst.
  destruct (disconnect_clears w Hst) as (H1 & H2 & H3). fold r in H1, H2, H3.
  split; [| by rewrite disconnect_idle].
  subst r. unfold disconnect. rewrite seq_actions, cancel_actions.
  unfold close_socket. destruct (socket (mgr w)) as [s|]; [| done].
  rewrite seq_world, seq_actions. unfold socket_close; simpl.
  by destruct (readyState w s) as [[]|].
Qed.

(** Method calls and timer expiries never emit an event on the singleton:
    ["connected"], ["disconnected"] and the message events come from socket
    listeners only.  In particular [disconnect()] does not announce
    itself. *)
Theorem only_socket_events_emit (w : World) (events : list Event) :
  Forall (fun e => from_socket e = false) events ->
  Forall (fun a => is_emit a = false) (run events w).2.
Proof.
  intros Hev. revert w.
  induction Hev as [|e events He Hev IH]; intros w; simpl; [constructor |].
  rewrite seq_actions. apply Forall_app. split; [| apply IH].
  assert (Forall (fun a => is_emit a = false) (connect w).2) as Hc.
  { intros. unfold connect.
    destruct (socket_in_use w); [by repeat constructor |].
    rewrite seq_actions, cancel_actions. apply Forall_app.
    split; [destruct (reconnectTimer (mgr w)); by repeat constructor |].
    unfold new_WebSocket. destruct (url_usable _); by repeat constructor. }
  destruct e; try discriminate He; simpl.
  - unfold seq, setUrl, modify. simpl. constructor.
  - done.
  - unfold disconnect. rewrite seq_actions, cancel_actions. apply Forall_app.
    split; [| destruct (reconnectTimer _); by repeat constructor].
    unfold close_socket. destruct (socket (mgr w)); by repeat constructor.
  - unfold send. destruct (socket_open w); by repeat constructor.
  - destruct (pending t w); [| constructor].
    unfold on_timeout. rewrite !seq_actions. simpl.
    constructor; [done |].
    generalize (unschedule t w). clear. intros w.
    unfold connect. destruct (socket_in_use w); [by repeat constructor |].
    rewrite seq_actions, cancel_actions. apply Forall_app.
    split; [destruct (reconnectTimer (mgr w)); by repeat constructor |].
    unfold new_WebSocket. destruct (url_usable _); by repeat constructor.
Qed.

Lemma only_socket_events_emit_witness :
  Forall (fun a => is_emit a = false)
    (run [CallSetUrl (js "ws://10.0.0.2:49080/ws") true; CallDisconnect;
          CallConnect; TimerExpired 0]
       (run [CallConnect; SocketOpened 0] initial).1).2.
Proof. apply only_socket_events_emit. repeat constructor. Defined.

Lemma disconnect_keeps w :
  url (mgr (disconnect w).1) = url (mgr w) /\
  length (sockets (disconnect w).1) = length (sockets w).
Proof.
  unfold disconnect. rewrite seq_world.
  assert (url (mgr (close_socket w).1) = url (mgr w) /\
          length (sockets (close_socket w).1) = length (sockets w))
    as [<- <-].
  { unfold close_socket. destruct (socket (mgr w)) as [s|]; [| done].
    rewrite seq_world. unfold socket_close; simpl.
    destruct (readyState w s) as [[]|]; simpl; by rewrite ?length_insert. }
  generalize (close_socket w).1. intros w1. unfold cancel_reconnectTimer.
  by destruct (reconnectTimer (mgr w1)).
Qed.

Lemma disconnect_keeps_url_usable w :
  url_usable (disconnect w).1 = url_usable w.
Proof.
  unfold disconnect. rewrite seq_world.
  assert (url_usable (close_socket w).1 = url_usable w) as <-.
  { unfold close_socket. destruct (socket (mgr w)) as [s|]; [| done].
    rewrite seq_world. unfold socket_close; simpl.
    by destruct (readyState w s) as [[]|]. }
  generalize (close_socket w).1. intros w1. unfold cancel_reconnectTimer.
  by destruct (reconnectTimer (mgr w1)).
Qed.

(** [setUrl] takes effect at the next call of the constructor, not before:
    while a socket is in use, [setUrl(u)] followed by [connect()] opens
    nothing.  [setUrl(u)], [disconnect()], [connect()] calls the
    constructor with [u] whatever the manager was doing: if it returns,
    the new socket is the one in use and is connecting; if it throws, the
    exception leaves [connect()] and the manager is left without socket.
    In both cases no timer is scheduled. *)
Theorem setUrl_applies_to_next_socket (events : list Event) (u : JsString)
    (usable : bool) :
  let w := (run events initial).1 in
  (socket_in_use w = true ->
   run [CallSetUrl u usable; CallConnect] w
   = (set_url_usable usable (set_mgr (set_url u (mgr w)) w),
      [ConsoleWarn "WebSocket is already connected or connecting."])) /\
  (let r := run [CallSetUrl u usable; CallDisconnect; CallConnect] w in
   last r.2 = Some (if usable then NewWebSocket (length (sockets w)) u
                    else Uncaught SyntaxError) /\
   timers r.1 = [] /\ reconnectTimer (mgr r.1) = None /\
   (usable = true ->
    socket (mgr r.1) = Some (length (sockets w)) /\
    readyState r.1 (length (sockets w)) = Some CONNECTING) /\
   (usable = false ->
    socket (mgr r.1) = None /\
    length (sockets r.1) = length (sockets w))).
Proof.
  intros w.
  set (w1 := set_url_usable usable (set_mgr (set_url u (mgr w)) w)).
  assert (handle (CallSetUrl u usable) w = (w1, [])) as Hset by done.
  split.
  - intros Hin.
    assert (socket_in_use w1 = true) as Hin' by exact Hin.
    unfold run, seq. rewrite Hset. unfold handle, connect, skip.
    by rewrite Hin'.
  - pose proof (single_timer_reachable events) as Hst. fold w in Hst.
    assert (single_timer w1) as Hst1 by done.
    destruct (disconnect_clears w1 Hst1) as (H1 & H2 & H3).
    destruct (disconnect_keeps w1) as [H4 H5].
    pose proof (disconnect_keeps_url_usable w1) as H6.
    set (w2 := (disconnect w1).1) in *.
    assert (connect w2
            = (if usable then
                 {| mgr := set_socket (Some (length (sockets w))) (mgr w2);
                    sockets := sockets w2 ++ [CONNECTING];
                    timers := []; nextTimer := nextTimer w2;
                    url_usable := true |}
               else w2,
               [if usable then NewWebSocket (length (sockets w)) u
                else Uncaught SyntaxError])) as Hc.
    { unfold connect, socket_in_use, seq, cancel_reconnectTimer,
        new_WebSocket, skip.
      rewrite H1, H2, H3, H4, H5, H6. simpl. by destruct usable. }
    cbv zeta. unfold run. rewrite !seq_world, !seq_actions, Hset.
    cbn [fst snd handle app]. fold w2. unfold skip. rewrite Hc.
    cbn [fst snd app].
    rewrite last_snoc.
    destruct usable; simpl; repeat split; try done.
    unfold readyState; simpl.
    change (length (sockets w)) with (length (sockets w1)).
    by rewrite <- H5, lookup_app_r, Nat.sub_diag.
Qed.

End TrackAudioProps.

(** ** The message type guards *)

Module MessagesProps.
Import Json Messages.

Lemma js_inj (a b : string) : js a = js b -> a = b.
Proof.
  unfold js. revert b. induction a as [|c a IH]; intros [|d b]; simpl;
    try done.
  intros [= Hc Hab]. f_equal; [| by apply IH].
  by rewrite <- (ascii_N_embedding c), <- (ascii_N_embedding d), Hc.
Qed.

(** A guard accepts exactly the objects whose [type] property, as last
    written in the frame, is the string of its kind: an object without
    [type], or with a [type] that is not that string, and every number,
    string, boolean and array is rejected with [false]; [null] is not
    rejected but makes the guard throw. *)
Theorem guard_accepts_iff (kind : string) (message : JsonValue) :
  (has_type kind message = Return true <->
   exists members,
     message = JObject members /\
     own_property (js "type") members = Some (JString (js kind))) /\
  (has_type kind message = Throw TypeError <-> message = JNull) /\
  (message <> JNull ->
   has_type kind message = Return true \/
   has_type kind message = Return false).
Proof.
  split; [split | split].
  - apply TrackAudioProps.has_type_true.
  - intros (members & -> & H). unfold has_type; simpl. rewrite H. simpl.
    by rewrite bool_decide_eq_true_2.
  - split; [by destruct message | by intros ->].
  - intros Hnull. destruct message; try done; try by right.
    unfold has_type; simpl. destruct (is_literal _ _); auto.
Qed.

Lemma accepts_has_type kind message :
  accepts (has_type kind) message = true ->
  exists members,
    message = JObject members /\
    own_property (js "type") members = Some (JString (js kind)).
Proof.
  unfold accepts. destruct (has_type kind message) as [[]|] eqn:E; try done.
  intros _. by apply TrackAudioProps.has_type_true.
Qed.

(** No message is accepted by two of the seven guards. *)
Theorem guards_are_exclusive (message : JsonValue) (i j : nat)
    (g1 g2 : JsonValue -> Result bool) :
  guards !! i = Some g1 -> guards !! j = Some g2 -> i <> j ->
  accepts g1 message = true -> accepts g2 message = false.
Proof.
  intros Hi Hj Hne H1.
  destruct (accepts g2 message) eqn:H2; [| done]. destruct Hne.
  assert (exists k1 k2, g1 = has_type k1 /\ g2 = has_type k2 /\
                        (k1 = k2 -> i = j)) as (k1 & k2 & -> & -> & Hk).
  { destruct i as [|[|[|[|[|[|[|i]]]]]]]; try done; injection Hi as <-;
      (destruct j as [|[|[|[|[|[|[|j]]]]]]]; try done; injection Hj as <-);
      (eexists _, _; split; [reflexivity |]; split; [reflexivity |]);
      done. }
  apply Hk.
  apply accepts_has_type in H1 as (m1 & -> & E1).
  apply accepts_has_type in H2 as (m2 & [= <-] & E2).
  rewrite E1 in E2. injection E2 as E2. by apply js_inj.
Qed.

Lemma guards_are_exclusive_witness :
  let message :=
    JObject [(js "type", JString (js "kRxBegin"));
             (js "value", JObject [])] in
  accepts isRxBegin message = true /\ accepts isTxEnd message = false.
Proof.
  split; [reflexivity |].
  apply (guards_are_exclusive _ 3 6 isRxBegin isTxEnd);
    [reflexivity | reflexivity | lia | reflexivity].
Defined.

End MessagesProps.

(** ** The ATIS letter controller *)

Module AtisLetterProps.
Import Json AtisLetter.

Lemma set_isUpdated_spec (newValue : bool) (w : World)
    (settings : AtisLetterSettings) :
  _settings (ctl w) = Some settings ->
  let '(w', _, r) := set_isUpdated newValue w in
  r = Return () /\
  _isUpdated (ctl w') = newValue /\
  _letter (ctl w') = _letter (ctl w) /\
  _settings (ctl w') = Some settings.
Proof.
  intros Hs. destruct w as [[ac un up le se] ts nt]; simpl in Hs; subst se.
  unfold set_isUpdated, andThen, get_autoClear, get_settings.
  destruct ac as [t|], newValue; simpl;
    try destruct (default true (autoClear settings)); simpl; done.
Qed.

(** C10: after [letter] has been assigned on a controller whose settings
    are initialized, [isUpdated] is true exactly when the letter stored
    before and the letter assigned are both truthy and differ; the first
    assignment of a letter and an assignment of [undefined] leave it
    false. *)
Theorem letter_sets_isUpdated_iff_changed (w : World)
    (newLetter : option JsString) (settings : AtisLetterSettings) :
  _settings (ctl w) = Some settings ->
  let '(w', _, r) := set_letter newLetter w in
  r = Return () /\
  _letter (ctl w') = newLetter /\
  (get_isUpdated (ctl w') = true <->
   truthy (_letter (ctl w)) = true /\ truthy newLetter = true /\
   _letter (ctl w) <> newLetter) /\
  (_letter (ctl w) = None -> get_isUpdated (ctl w') = false) /\
  (newLetter = None -> get_isUpdated (ctl w') = false).
Proof.
  intros Hs. unfold set_letter, andThen at 1.
  set (b := truthy (_letter (ctl w)) && truthy newLetter
            && negb (bool_decide (_letter (ctl w) = newLetter))).
  pose proof (set_isUpdated_spec b w settings Hs) as H.
  assert ((if b then set_isUpdated true w else set_isUpdated false w)
          = set_isUpdated b w) as -> by by destruct b.
  destruct (set_isUpdated b w) as [[w1 a1] r1].
  destruct H as (-> & Hup & Hle & Hse). simpl.
  unfold get_isUpdated. simpl. rewrite Hup. subst b.
  split; [done |]. split; [done |]. split; [| split].
  - rewrite !andb_true_iff, negb_true_iff, bool_decide_eq_false. tauto.
  - intros ->. done.
  - intros ->. by rewrite andb_false_r.
Qed.

Lemma letter_sets_isUpdated_iff_changed_witness :
  let settings := {| autoClear := None; callsign := Some (js "KSEA_ATIS");
                     title := None; showTitle := None; showLetter := None |} in
  let w := (set_letter (Some (js "A")) (construct settings)).1.1 in
  let w' := (set_letter (Some (js "B")) w).1.1 in
  get_isUpdated (ctl w) = false /\ get_isUpdated (ctl w') = true.
Proof.
  split; [reflexivity |].
  pose proof (letter_sets_isUpdated_iff_changed
    (set_letter (Some (js "A"))
       (construct {| autoClear := None; callsign := Some (js "KSEA_ATIS");
                     title := None; showTitle := None;
                     showLetter := None |})).1.1
    (Some (js "B")) _ eq_refl) as H.
  destruct (set_letter (Some (js "B")) _) as [[w' a] r].
  destruct H as (_ & _ & H & _). apply H.
  split; [reflexivity |]. split; [reflexivity | discriminate].
Defined.

(** *** The auto-clear timer *)

Local Open Scope Z_scope.

Definition tracked (settings : AtisLetterSettings) (w : World) : Prop :=
  one_timeout w /\ _settings (ctl w) = Some settings.

(** What [set isUpdated] leaves, spelled out. *)
Lemma set_isUpdated_result settings newValue w :
  tracked settings w ->
  let arm := newValue && default true (autoClear settings) in
  set_isUpdated newValue w =
  ({| ctl := {| _autoClearTimeout :=
                  if arm then Some (nextTimeout w) else None;
                _isUnavailable := _isUnavailable (ctl w);
                _isUpdated := newValue;
                _letter := _letter (ctl w);
                _settings := Some settings |};
      timeouts := if arm then [(nextTimeout w, 120000)] else [];
      nextTimeout := if arm then S (nextTimeout w) else nextTimeout w |},
   match _autoClearTimeout (ctl w) with
   | Some t => [ClearTimeout t]
   | None => []
   end ++ (if arm then [SetTimeout (nextTimeout w) 120000] else [])
   ++ [RefreshDisplay],
   Return ()).
Proof.
  intros [Hone Hset].
  destruct w as [[ac un up le se] ts nt]; simpl in *; subst se.
  unfold one_timeout in Hone; simpl in Hone.
  unfold set_isUpdated, andThen, get_autoClear, get_settings.
  destruct ts as [|[t d] [|? ?]]; try done.
  - destruct ac as [t|], newValue; simpl;
      try destruct (default true (autoClear settings)); simpl; done.
  - destruct Hone as [-> ->]. simpl.
    rewrite filter_cons_False by (simpl; tauto). rewrite filter_nil.
    destruct newValue; simpl;
      try destruct (default true (autoClear settings)); simpl; done.
Qed.

Lemma tracked_set_isUpdated settings newValue w :
  tracked settings w ->
  tracked settings (set_isUpdated newValue w).1.1 /\
  (set_isUpdated newValue w).2 = Return ().
Proof.
  intros Hw. rewrite (set_isUpdated_result settings) by done.
  split; [| done]. split; [| done].
  unfold one_timeout; simpl. by destruct (_ && _).
Qed.

(** What [set letter] leaves, spelled out. *)
Lemma set_letter_result settings newLetter w :
  tracked settings w ->
  let changed := truthy (_letter (ctl w)) && truthy newLetter
                 && negb (bool_decide (_letter (ctl w) = newLetter)) in
  let arm := changed && default true (autoClear settings) in
  set_letter newLetter w =
  ({| ctl := {| _autoClearTimeout :=
                  if arm then Some (nextTimeout w) else None;
                _isUnavailable := _isUnavailable (ctl w);
                _isUpdated := changed;
                _letter := newLetter;
                _settings := Some settings |};
      timeouts := if arm then [(nextTimeout w, 120000)] else [];
      nextTimeout := if arm then S (nextTimeout w) else nextTimeout w |},
   (match _autoClearTimeout (ctl w) with
    | Some t => [ClearTimeout t]
    | None => []
    end ++ (if arm then [SetTimeout (nextTimeout w) 120000] else [])
    ++ [RefreshDisplay]) ++ [RefreshDisplay],
   Return ()).
Proof.
  intros Hw changed arm. unfold set_letter, andThen at 1. fold changed.
  assert ((if changed then set_isUpdated true w else set_isUpdated false w)
          = set_isUpdated changed w) as -> by by destruct changed.
  by rewrite (set_isUpdated_result settings).
Qed.

(** What the expiry of the scheduled timer leaves. *)
Lemma expiry_result settings t w :
  tracked settings w -> scheduled t w = true ->
  handle (TimeoutExpired t) w =
  ({| ctl := {| _autoClearTimeout := None;
                _isUnavailable := _isUnavailable (ctl w);
                _isUpdated := false;
                _letter := _letter (ctl w);
                _settings := Some settings |};
      timeouts := []; nextTimeout := nextTimeout w |},
   [RefreshDisplay], Return ()).
Proof.
  intros [Hone Hset] Hsch. simpl. rewrite Hsch.
  destruct w as [[ac un up le se] ts nt]; simpl in *; subst se.
  unfold one_timeout in Hone; unfold scheduled in Hsch; simpl in *.
  destruct ts as [|[t' d] [|? ?]]; try done.
  destruct Hone as [-> ->]. simpl in Hsch.
  rewrite orb_false_r in Hsch. apply Nat.eqb_eq in Hsch as ->.
  unfold andThen at 1, fire. simpl.
  rewrite filter_cons_False by (simpl; tauto). by rewrite filter_nil.
Qed.

Lemma tracked_handle settings e w :
  tracked settings w ->
  tracked settings (handle e w).1.1 /\ (handle e w).2 = Return ().
Proof.
  intros Hw. destruct e.
  - simpl. rewrite (set_letter_result settings) by done. simpl.
    split; [| done]. split; [| done].
    unfold one_timeout; simpl. by destruct (_ && _).
  - by apply tracked_set_isUpdated.
  - simpl. unfold set_isUnavailable. by destruct (Bool.eqb _ _).
  - simpl. destruct Hw as [H1 H2]. split; [| done]. split; [| done].
    unfold one_timeout in *; simpl.
    by destruct (timeouts w) as [|[t d] [|? ?]].
  - destruct (scheduled t w) eqn:Hsch.
    + by rewrite (expiry_result settings).
    + simpl. by rewrite Hsch.
Qed.

Lemma tracked_run settings events w :
  tracked settings w ->
  tracked settings (run events w).1.1 /\ (run events w).2 = Return ().
Proof.
  revert w. induction events as [|e events IH]; intros w Hw; [done |].
  simpl. unfold andThen.
  destruct (tracked_handle settings e w Hw) as [H1 H2].
  destruct (handle e w) as [[w1 a1] r1]; simpl in *. subst r1.
  destruct (IH w1 H1) as [H3 H4].
  by destruct (run events w1) as [[w2 a2] r2].
Qed.

Lemma tracked_after settings events : tracked settings (after settings events).
Proof. by apply tracked_run. Qed.

Lemma run_two e1 e2 w w1 a1 :
  handle e1 w = (w1, a1, Return ()) ->
  (run [e1; e2] w).1.1 = (handle e2 w1).1.1.
Proof.
  intros H. simpl. unfold andThen. rewrite H.
  by destruct (handle e2 w1) as [[w2 a2] [[]|e]].
Qed.

(** Whatever is assigned to a constructed controller, in whatever order
    timers expire, no setter throws, at most one auto-clear timer is
    scheduled, it is the one [_autoClearTimeout] holds, and it is set for
    two minutes. *)
Theorem at_most_one_autoClear_timer (settings : AtisLetterSettings)
    (events : list Event) :
  let r := run events (construct settings) in
  r.2 = Return () /\
  (length (timeouts r.1.1) <= 1)%nat /\
  (forall t d, (t, d) ∈ timeouts r.1.1 ->
     d = 120000 /\ _autoClearTimeout (ctl r.1.1) = Some t).
Proof.
  destruct (tracked_run settings events (construct settings)) as [[H _] Hr];
    [done |].
  simpl. split; [done |]. unfold one_timeout in H.
  destruct (timeouts _) as [|[t d] [|? ?]]; try done.
  - split; [simpl; lia |]. intros t d Hin. by apply elem_of_nil in Hin.
  - split; [simpl; lia |]. intros t' d' Hin.
    apply list_elem_of_singleton in Hin. injection Hin as -> ->.
    by destruct H.
Qed.

(** Assigning [isUpdated] re-arms the timer: whatever was scheduled is
    dropped, and exactly one two-minute timer is scheduled if the value is
    [true] and the [autoClear] setting is not [false]; otherwise none is. *)
Theorem isUpdated_rearms_autoClear (settings : AtisLetterSettings)
    (events : list Event) (newValue : bool) :
  let w := after settings events in
  let w' := (set_isUpdated newValue w).1.1 in
  get_isUpdated (ctl w') = newValue /\
  timeouts w' =
  if newValue && default true (autoClear settings)
  then [(nextTimeout w, 120000)] else [].
Proof.
  simpl. by rewrite (set_isUpdated_result settings)
    by apply tracked_after.
Qed.

(** When the scheduled timer expires, [isUpdated] becomes false, nothing
    is scheduled any more and the letter is kept. *)
Theorem autoClear_expiry_clears_isUpdated (settings : AtisLetterSettings)
    (events : list Event) (t : nat) :
  let w := after settings events in
  scheduled t w = true ->
  let w' := (handle (TimeoutExpired t) w).1.1 in
  get_isUpdated (ctl w') = false /\ timeouts w' = [] /\
  _autoClearTimeout (ctl w') = None /\ _letter (ctl w') = _letter (ctl w).
Proof.
  intros w Hsch.
  by rewrite (expiry_result settings) by (done || apply tracked_after).
Qed.

Lemma autoClear_expiry_clears_isUpdated_witness :
  let settings := {| autoClear := None; callsign := Some (js "KSEA_ATIS");
                     title := None; showTitle := None; showLetter := None |} in
  let w := after settings [AssignLetter (Some (js "A"));
                           AssignLetter (Some (js "B"))] in
  let w' := (handle (TimeoutExpired 0) w).1.1 in
  get_isUpdated (ctl w) = true /\
  get_isUpdated (ctl w') = false /\ _letter (ctl w') = Some (js "B").
Proof.
  split; [reflexivity |].
  destruct (autoClear_expiry_clears_isUpdated
    {| autoClear := None; callsign := Some (js "KSEA_ATIS");
       title := None; showTitle := None; showLetter := None |}
    [AssignLetter (Some (js "A")); AssignLetter (Some (js "B"))] 0%nat
    eq_refl) as (H1 & _ & _ & H4).
  split; [exact H1 | exact H4].
Defined.

(** Assigning the letter the controller already holds clears [isUpdated]
    and the timer: a changed letter stops counting as updated as soon as
    the same letter is assigned again. *)
Theorem same_letter_again_clears_isUpdated (settings : AtisLetterSettings)
    (events : list Event) (l : option JsString) :
  let w := after settings events in
  let w' := (run [AssignLetter l; AssignLetter l] w).1.1 in
  get_isUpdated (ctl w') = false /\ timeouts w' = [] /\ _letter (ctl w') = l.
Proof.
  intros w w'. subst w'. pose proof (tracked_after settings events) as Hw.
  fold w in Hw.
  erewrite run_two; [| by apply (set_letter_result settings)].
  match goal with |- context [handle _ ?w1] =>
    assert (tracked settings w1) as H1
  end.
  { split; [| done]. unfold one_timeout; simpl. by destruct (_ && _). }
  simpl handle. rewrite (set_letter_result settings) by done.
  simpl. rewrite bool_decide_eq_true_2 by done. simpl.
  by rewrite andb_false_r.
Qed.

(** After [reset()] the next letter never counts as updated, whatever
    letter was held before, and no timer is left scheduled. *)
Theorem first_letter_after_reset_is_not_updated
    (settings : AtisLetterSettings) (events : list Event)
    (l : option JsString) :
  let w := after settings events in
  let w' := (run [CallReset; AssignLetter l] w).1.1 in
  get_isUpdated (ctl w') = false /\ timeouts w' = [] /\ _letter (ctl w') = l.
Proof.
  intros w w'. subst w'. pose proof (tracked_after settings events) as Hw.
  fold w in Hw.
  erewrite run_two; [| reflexivity].
  match goal with |- context [handle _ ?w1] =>
    assert (tracked settings w1) as H1
  end.
  { destruct Hw as [Hone Hset]. split; [| done].
    unfold one_timeout in *; simpl.
    by destruct (timeouts w) as [|[t d] [|? ?]]. }
  simpl handle. by rewrite (set_letter_result settings) by done.
Qed.

(** A letter that replaces a different one counts as updated for two
    minutes: the assignment sets [isUpdated] and schedules the timer, and
    its expiry clears [isUpdated] again while the new letter stays. *)
Theorem changed_letter_is_updated_for_two_minutes
    (settings : AtisLetterSettings) (events : list Event) (b : JsString) :
  let w := after settings events in
  truthy (_letter (ctl w)) = true ->
  truthy (Some b) = true ->
  _letter (ctl w) <> Some b ->
  autoClear settings <> Some false ->
  let w1 := (set_letter (Some b) w).1.1 in
  let w2 := (handle (TimeoutExpired (nextTimeout w)) w1).1.1 in
  (get_isUpdated (ctl w1) = true /\
   timeouts w1 = [(nextTimeout w, 120000)]) /\
  (get_isUpdated (ctl w2) = false /\ _letter (ctl w2) = Some b /\
   timeouts w2 = []).
Proof.
  intros w Ha Hb Hne Hac w1 w2.
  pose proof (tracked_after settings events) as Hw. fold w in Hw.
  assert (default true (autoClear settings) = true) as Hd.
  { destruct (autoClear settings) as [[]|]; done. }
  assert (w1 = {| ctl := {| _autoClearTimeout := Some (nextTimeout w);
                            _isUnavailable := _isUnavailable (ctl w);
                            _isUpdated := true; _letter := Some b;
                            _settings := Some settings |};
                  timeouts := [(nextTimeout w, 120000)];
                  nextTimeout := S (nextTimeout w) |}) as E1.
  { subst w1. rewrite (set_letter_result settings) by done.
    cbn -[truthy]. by rewrite Ha, Hb, Hd, bool_decide_eq_false_2. }
  split; [by rewrite E1 |].
  subst w2. rewrite (expiry_result settings).
  - by rewrite E1.
  - by rewrite E1.
  - rewrite E1. unfold scheduled; simpl. by rewrite Nat.eqb_refl.
Qed.

Lemma changed_letter_is_updated_for_two_minutes_witness :
  let settings := {| autoClear := Some true; callsign := None;
                     title := None; showTitle := None; showLetter := None |} in
  let w := after settings [AssignLetter (Some (js "A"))] in
  let w1 := (set_letter (Some (js "B")) w).1.1 in
  let w2 := (handle (TimeoutExpired 0) w1).1.1 in
  get_isUpdated (ctl w1) = true /\ get_isUpdated (ctl w2) = false.
Proof.
  destruct (changed_letter_is_updated_for_two_minutes
    {| autoClear := Some true; callsign := None;
       title := None; showTitle := None; showLetter := None |}
    [AssignLetter (Some (js "A"))] (js "B"))
    as [[H1 _] [H2 _]]; try reflexivity; try discriminate.
  split; [exact H1 | exact H2].
Defined.

End AtisLetterProps.

(** ** The connection status controller *)

Module TrackAudioStatusProps.
Import Json TrackAudioStatus.

Section Controller.

Variable Template : Type.
Variable compileSvg : JsString -> option Template.
Variable isSvg : option JsString -> bool.
Variable generateSvgForSetImage : option Template -> JsString -> JsString.
Variable stringOrUndefined : option JsString -> option JsString.
Variable titleBuilder_join : option JsString -> bool -> JsString -> JsString.

Local Abbreviation Controller := (Controller Template).
Local Abbreviation run := (run Template compileSvg isSvg generateSvgForSetImage
                   stringOrUndefined titleBuilder_join).
Local Abbreviation handle :=
  (handle Template compileSvg isSvg generateSvgForSetImage
                      stringOrUndefined titleBuilder_join).
Local Abbreviation construct := (construct Template compileSvg isSvg
                         generateSvgForSetImage stringOrUndefined
                         titleBuilder_join).
Local Abbreviation set_settings := (set_settings Template compileSvg isSvg
                            generateSvgForSetImage stringOrUndefined
                            titleBuilder_join).
Local Abbreviation set_isConnected := (set_isConnected Template isSvg
                               generateSvgForSetImage).
Local Abbreviation set_isVoiceConnected := (set_isVoiceConnected Template isSvg
                                    generateSvgForSetImage titleBuilder_join).
Local Abbreviation reset := (reset Template isSvg generateSvgForSetImage
                     titleBuilder_join).
Local Abbreviation refreshImage :=
  (refreshImage Template isSvg generateSvgForSetImage).
Local Abbreviation refreshTitle := (refreshTitle Template titleBuilder_join).
Local Abbreviation setImage := (setImage Template isSvg generateSvgForSetImage).
Local Abbreviation default_image := (default_image Template isSvg
                             generateSvgForSetImage).

(** No private icon path is set. *)
Definition paths_unset (c : Controller) : Prop :=
  _notConnectedIconPath Template c = None /\
  _connectedIconPath Template c = None /\
  _voiceConnectedIconPath Template c = None.

Definition keeps_unset (f : Op Template) : Prop :=
  forall c, paths_unset c -> paths_unset (f c).1.

Lemma andThen_fst (f g : Op Template) c :
  (andThen Template f g c).1 = (g (f c).1).1.
Proof.
  unfold andThen. destruct (f c) as [c1 a1]. simpl. by destruct (g c1).
Qed.

Lemma andThen_snd (f g : Op Template) c :
  (andThen Template f g c).2 = (f c).2 ++ (g (f c).1).2.
Proof.
  unfold andThen. destruct (f c) as [c1 a1]. simpl. by destruct (g c1).
Qed.

Lemma keeps_unset_andThen f g :
  keeps_unset f -> keeps_unset g -> keeps_unset (andThen Template f g).
Proof. intros Hf Hg c Hc. rewrite andThen_fst. by apply Hg, Hf. Qed.

Lemma keeps_unset_refreshTitle : keeps_unset refreshTitle.
Proof. by intros c Hc. Qed.

Lemma keeps_unset_refreshImage : keeps_unset refreshImage.
Proof.
  intros c Hc.
  unfold TrackAudioStatus.refreshImage, TrackAudioStatus.setImage.
  by repeat case_match.
Qed.

Lemma keeps_unset_update (f : Controller -> Controller) :
  (forall c, paths_unset c -> paths_unset (f c)) ->
  keeps_unset (fun c => (f c, [])).
Proof. intros Hf c Hc. by apply Hf. Qed.

Lemma keeps_unset_set_isConnected newValue :
  keeps_unset (set_isConnected newValue).
Proof.
  intros c Hc. unfold TrackAudioStatus.set_isConnected.
  destruct (Bool.eqb _ _); [done |]. revert c Hc.
  repeat (apply keeps_unset_andThen);
    try apply keeps_unset_refreshImage;
    try (by apply keeps_unset_update).
  intros c Hc. by destruct (negb newValue).
Qed.

Lemma keeps_unset_set_isVoiceConnected newValue :
  keeps_unset (set_isVoiceConnected newValue).
Proof.
  intros c Hc. unfold TrackAudioStatus.set_isVoiceConnected.
  destruct (Bool.eqb _ _); [done |]. revert c Hc.
  repeat (apply keeps_unset_andThen);
    try apply keeps_unset_refreshTitle;
    try apply keeps_unset_refreshImage;
    by apply keeps_unset_update.
Qed.

Lemma keeps_unset_handle e : keeps_unset (handle e).
Proof.
  destruct e; simpl.
  - unfold TrackAudioStatus.set_settings.
    repeat (apply keeps_unset_andThen);
      try apply keeps_unset_refreshTitle;
      try apply keeps_unset_refreshImage;
      try (by apply keeps_unset_update);
      intros c Hc;
      unfold set_connectedIconPath, set_notConnectedIconPath,
        set_voiceConnectedIconPath;
      by case_match.
  - apply keeps_unset_set_isConnected.
  - apply keeps_unset_set_isVoiceConnected.
  - apply keeps_unset_andThen;
      [apply keeps_unset_set_isConnected
      | apply keeps_unset_set_isVoiceConnected].
Qed.

Lemma keeps_unset_run events : keeps_unset (run events).
Proof.
  induction events as [|e events IH]; simpl; [by intros c Hc |].
  apply keeps_unset_andThen; [apply keeps_unset_handle | done].
Qed.

Lemma paths_unset_reachable settings events :
  paths_unset (run events (construct settings).1).1.
Proof.
  apply keeps_unset_run. unfold TrackAudioStatus.construct.
  apply (keeps_unset_andThen _ _
           (keeps_unset_handle (AssignSettings settings))
           (keeps_unset_andThen _ _ keeps_unset_refreshTitle
              keeps_unset_refreshImage)).
  done.
Qed.

(** No setter stores an icon path, so in every state the controller
    reaches the three path getters answer the default template path,
    whatever settings were assigned.  Hence [refreshImage] always calls
    [setImage] with the default path, on which the SVG test is made, and
    with the template stored for the state shown; and assigning settings
    compiles each template from the path of the new settings, except that
    a template that exists is kept when the new path is the default one. *)
Theorem icon_paths_stay_default (settings : TrackAudioStatusSettings)
    (events : list Event) (newValue : TrackAudioStatusSettings) :
  let c := (run events (construct settings).1).1 in
  let c' := (set_settings newValue c).1 in
  let compiled := fun (old : option Template) (path : option JsString) =>
    if must_compile Template old defaultTemplatePath path
    then compileSvg (default defaultTemplatePath path) else old in
  (get_notConnectedIconPath c = defaultTemplatePath /\
   get_connectedIconPath c = defaultTemplatePath /\
   get_voiceConnectedIconPath c = defaultTemplatePath) /\
  refreshImage c
  = (c, [if _isVoiceConnected c
         then default_image (_compiledVoiceConnectedSvg c) VOICE_CONNECTED
         else if _isConnected c
         then default_image (_compiledConnectedSvg c) CONNECTED
         else default_image (_compiledNotConnectedSvg c) NOT_CONNECTED]) /\
  (_compiledNotConnectedSvg c'
   = compiled (_compiledNotConnectedSvg c)
       (stringOrUndefined (notConnectedIconPath newValue)) /\
   _compiledConnectedSvg c'
   = compiled (_compiledConnectedSvg c)
       (stringOrUndefined (connectedIconPath newValue)) /\
   _compiledVoiceConnectedSvg c'
   = compiled (_compiledVoiceConnectedSvg c)
       (stringOrUndefined (voiceConnectedIconPath newValue))).
Proof.
  intros c c' compiled.
  pose proof (paths_unset_reachable settings events) as Hc. fold c in Hc.
  subst c'. clearbody c. destruct c as [co vo se p1 p2 p3 t1 t2 t3].
  destruct Hc as (H1 & H2 & H3). simpl in H1, H2, H3. subst p1 p2 p3.
  split; [done |]. split.
  - unfold TrackAudioStatus.refreshImage, TrackAudioStatus.setImage,
      TrackAudioStatus.default_image, get_voiceConnectedIconPath,
      get_connectedIconPath, get_notConnectedIconPath. simpl.
    destruct vo; [| destruct co]; by destruct (isSvg _).
  - unfold TrackAudioStatus.set_settings. rewrite !andThen_fst. simpl.
    unfold TrackAudioStatus.refreshImage, TrackAudioStatus.setImage,
      TrackAudioStatus.refreshTitle, TrackAudioStatus.setTitle,
      set_connectedIconPath, set_notConnectedIconPath,
      set_voiceConnectedIconPath, get_voiceConnectedIconPath,
      get_connectedIconPath, get_notConnectedIconPath, compiled. simpl.
    repeat case_match; simpl in *; repeat split; congruence.
Qed.

(** [reset()] leaves both flags false from any state, and touches the
    display only if one of them was set. *)
Theorem reset_clears_both_flags (c : Controller) :
  let r := reset c in
  _isConnected r.1 = false /\ _isVoiceConnected r.1 = false /\
  (r.2 = [] <-> _isConnected c = false /\ _isVoiceConnected c = false).
Proof.
  destruct c as [co vo se p1 p2 p3 t1 t2 t3].
  unfold TrackAudioStatus.reset, TrackAudioStatus.set_isConnected,
    TrackAudioStatus.set_isVoiceConnected, TrackAudioStatus.refreshImage,
    TrackAudioStatus.refreshTitle, TrackAudioStatus.setImage,
    TrackAudioStatus.setTitle, andThen, nothing.
  destruct co, vo; simpl; repeat case_match; simpl in *;
    repeat split; try done; try (intros [? ?]; done);
    simplify_eq; done.
Qed.

(** Losing the connection clears the voice flag as well and shows the
    not-connected image, without touching the title; but [isConnected =
    false] on a controller that is not connected does nothing, even when
    the voice flag is set. *)
Theorem isConnected_false_clears_voice (c : Controller) :
  let r := set_isConnected false c in
  (_isConnected c = true ->
   _isConnected r.1 = false /\ _isVoiceConnected r.1 = false /\
   r.2 = (setImage (Some (get_notConnectedIconPath c))
            (_compiledNotConnectedSvg c) NOT_CONNECTED c).2) /\
  (_isConnected c = false -> r = (c, [])).
Proof.
  destruct c as [co vo se p1 p2 p3 t1 t2 t3].
  unfold TrackAudioStatus.set_isConnected, TrackAudioStatus.refreshImage,
    TrackAudioStatus.setImage, andThen, nothing,
    get_notConnectedIconPath. simpl.
  split; intros ->; simpl; [| done].
  by destruct (isSvg _).
Qed.

End Controller.

(** A controller whose collaborators are the simplest ones: every path is
    an SVG, a template is its path, an image is its colour. *)
Lemma isConnected_false_clears_voice_witness :
  let compile := fun path : JsString => Some path in
  let svg := fun _ : option JsString => true in
  let generate := fun (_ : option JsString) (colour : JsString) => colour in
  let keep := fun path : option JsString => path in
  let join := fun (t : option JsString) (_ : bool) (_ : JsString) =>
                default [] t in
  let settings := {| title := None; showTitle := None;
                     connectedIconPath := None; notConnectedIconPath := None;
                     voiceConnectedIconPath := None |} in
  let c := (run JsString compile svg generate keep join
              [AssignIsConnected true; AssignIsVoiceConnected true]
              (construct JsString compile svg generate keep join settings).1).1
  in
  let r := set_isConnected JsString svg generate false c in
  _isVoiceConnected c = true /\ _isVoiceConnected r.1 = false /\
  r.2 = [SetImage (Some NOT_CONNECTED)].
Proof.
  split; [reflexivity |].
  match goal with |- context [set_isConnected _ ?svg ?generate false ?c] =>
    destruct (isConnected_false_clears_voice JsString svg generate c)
      as [H _]
  end.
  destruct H as (_ & H2 & H3); [reflexivity |].
  split; [exact H2 | exact H3].
Defined.

End TrackAudioStatusProps.

(** ** The VATSIM poller *)

Module VatsimProps.
Import Json Vatsim.

Local Open Scope Z_scope.

Lemma poll_seq_world (f g : Step) w : ((f >> g) w).1 = (g (f w).1).1.
Proof. unfold seq. destruct (f w) as [w1 a1]. simpl. by destruct (g w1). Qed.

Lemma poll_seq_actions (f g : Step) w :
  ((f >> g) w).2 = (f w).2 ++ (g (f w).1).2.
Proof. unfold seq. destruct (f w) as [w1 a1]. simpl. by destruct (g w1). Qed.

(** What [stop] leaves. *)
Lemma stop_result w :
  one_interval w ->
  stop w = ({| mgr := mgr w; intervals := []; nextInterval := nextInterval w |},
            match intervalId (mgr w) with
            | Some id => [ClearInterval id]
            | None => []
            end).
Proof.
  destruct w as [[i] l n]. unfold one_interval, stop, clearInterval; simpl.
  destruct l as [|[id ms] [|? ?]]; try done.
  - by destruct i.
  - intros ->. by rewrite filter_cons_False by (simpl; tauto).
Qed.

(** What [start] leaves. *)
Lemma start_result ms w :
  one_interval w ->
  start ms w =
  ({| mgr := {| intervalId := Some (nextInterval w) |};
      intervals := [(nextInterval w, ms)];
      nextInterval := S (nextInterval w) |},
   match intervalId (mgr w) with
   | Some id => [ClearInterval id]
   | None => []
   end ++ [AxiosGet "https://data.vatsim.net/v3/vatsim-data.json";
           SetInterval (nextInterval w) ms]).
Proof.
  intros Hw. unfold start, seq. by rewrite stop_result.
Qed.

Lemma one_interval_handle e w : one_interval w -> one_interval (handle e w).1.
Proof.
  intros Hw. destruct e; simpl.
  - by rewrite start_result.
  - by rewrite stop_result.
  - unfold refresh. rewrite poll_seq_world, stop_result by done.
    by rewrite start_result.
  - by destruct (active id w).
  - done.
  - done.
Qed.

Lemma one_interval_run events w :
  one_interval w -> one_interval (run events w).1.
Proof.
  revert w. induction events as [|e events IH]; intros w Hw; [done |].
  simpl. rewrite poll_seq_world. by apply IH, one_interval_handle.
Qed.

(** However [start], [stop] and [refresh] are called, at most one polling
    interval is active, and it is the one [intervalId] refers to. *)
Theorem at_most_one_polling_interval (events : list Event) :
  let w := (run events initial).1 in
  (length (intervals w) <= 1)%nat /\
  (forall id ms, (id, ms) ∈ intervals w -> intervalId (mgr w) = Some id).
Proof.
  pose proof (one_interval_run events initial I) as H. simpl.
  unfold one_interval in H.
  destruct (intervals _) as [|[id ms] [|? ?]]; try done.
  - split; [simpl; lia |]. intros ? ? Hin. by apply elem_of_nil in Hin.
  - split; [simpl; lia |]. intros ? ? Hin.
    apply list_elem_of_singleton in Hin. by injection Hin as -> ->.
Qed.

(** [start(ms)] replaces whatever interval was active by one of period
    [ms] and sends one request at once; [refresh()] does the same with the
    default period of five minutes, whatever period polling was started
    with. *)
Theorem refresh_restarts_with_default_period (events : list Event) :
  let w := (run events initial).1 in
  (forall ms,
     intervals (start ms w).1 = [(nextInterval w, ms)] /\
     filter (fun a => is_request a = true) (start ms w).2
     = [AxiosGet "https://data.vatsim.net/v3/vatsim-data.json"]) /\
  intervals (refresh w).1 = [(nextInterval w, 300000)] /\
  filter (fun a => is_request a = true) (refresh w).2
  = [AxiosGet "https://data.vatsim.net/v3/vatsim-data.json"].
Proof.
  intros w. pose proof (one_interval_run events initial I) as Hw. fold w in Hw.
  split; [intros ms; rewrite start_result by done |].
  - split; [done |]. by destruct (intervalId (mgr w)).
  - unfold refresh. rewrite poll_seq_world, poll_seq_actions.
    rewrite stop_result by done. simpl.
    rewrite start_result by done. simpl.
    split; [done |]. by destruct (intervalId (mgr w)).
Qed.

Lemma ticks_are_idle ids w :
  intervals w = [] -> run (Tick <$> ids) w = (w, []).
Proof.
  intros Hw. induction ids as [|id ids IH]; [done |].
  rewrite fmap_cons. simpl. unfold seq, active. rewrite Hw. simpl.
  by rewrite IH.
Qed.

(** After [stop()] no interval is active, and the ticks of intervals
    cleared earlier request nothing. *)
Theorem stop_ends_polling (events : list Event) (ids : list nat) :
  let w' := (stop (run events initial).1).1 in
  intervals w' = [] /\ run (Tick <$> ids) w' = (w', []).
Proof.
  pose proof (one_interval_run events initial I) as Hw. simpl.
  rewrite stop_result by done. simpl. split; [done |].
  by apply ticks_are_idle.
Qed.

End VatsimProps.

(** ** The SVG template cache *)

Module SvgTemplatesProps.
Import Json SvgTemplates.

Local Open Scope Z_scope.

Section Manager.

Variable extname : JsString -> JsString.
Variable toLowerCase : JsString -> JsString.
Variable normalize : JsString -> JsString.
Variable Template View : Type.
Variable compile : JsString -> Template.
Variable apply_template : Template -> View -> Result JsString.
Variable base64 : JsString -> JsString.

Local Abbreviation World := (World Template).
Local Abbreviation isSvg := (isSvg extname toLowerCase).
Local Abbreviation cacheTemplate :=
  (cacheTemplate extname toLowerCase Template compile).
Local Abbreviation getTemplate :=
  (getTemplate extname toLowerCase Template compile).
Local Abbreviation renderSvg :=
  (renderSvg extname toLowerCase Template View compile apply_template base64).
Local Abbreviation on_change :=
  (on_change extname toLowerCase normalize Template compile).
Local Abbreviation handle :=
  (handle extname toLowerCase normalize Template View compile apply_template
     base64).
Local Abbreviation run :=
  (run extname toLowerCase normalize Template View compile apply_template
     base64).
Local Abbreviation construct := (construct Template).
Local Abbreviation reset := (reset Template).
Local Abbreviation data_uri := (data_uri base64).

(** Every cached path is an SVG path, is watched, and has a template. *)
Definition cache_ok (w : World) : Prop :=
  forall p info, templates Template w !! p = Some info ->
    isSvg (Some p) = true /\ p ∈ watched Template w /\
    is_Some (compiledTemplate Template info).

Lemma cache_ok_cacheTemplate p w :
  cache_ok w -> cache_ok (cacheTemplate p w).1.1.
Proof.
  intros Hw. unfold SvgTemplates.cacheTemplate.
  destruct (isSvg (Some p)) eqn:Hsvg; simpl; [| done].
  destruct (mtime Template w p) as [m|]; [| done].
  destruct (content Template w p) as [c|]; [| done].
  intros q info. simpl. rewrite lookup_insert. case_decide as Hq.
  - subst q. intros [= <-]. simpl. split; [done |].
    split; [set_solver | by eexists].
  - intros Hin. destruct (Hw q info Hin) as (H1 & H2 & H3).
    split; [done |]. split; [set_solver | done].
Qed.

Lemma cache_ok_handle e w : cache_ok w -> cache_ok (handle e w).1.
Proof.
  intros Hw. destruct e; simpl.
  - unfold SvgTemplates.renderSvg, SvgTemplates.getTemplate.
    destruct (falsy (Some filePath)); [done |].
    destruct (templates Template w !! filePath ≫= _) as [t|]; [done |].
    pose proof (cache_ok_cacheTemplate filePath w Hw) as H.
    destruct (cacheTemplate filePath w) as [[w1 a1] [t|]]; done.
  - intros q info. simpl. by rewrite lookup_empty.
  - by apply cache_ok_cacheTemplate.
  - done.
Qed.

Lemma cache_ok_run events w : cache_ok w -> cache_ok (run events w).1.
Proof.
  revert w. induction events as [|e events IH]; intros w Hw; [done |].
  simpl. pose proof (cache_ok_handle e w Hw) as H1.
  destruct (handle e w) as [w1 a1]. specialize (IH w1 H1).
  by destruct (run events w1) as [w2 a2].
Qed.

Lemma cache_ok_construct stat read : cache_ok (construct stat read).
Proof. intros q info. simpl. by rewrite lookup_empty. Qed.

(** A path that is not an SVG path is never cached, and rendering it
    answers [undefined] without a look at the disk and without a change to
    the manager. *)
Theorem only_svg_paths_are_cached (stat : JsString -> option Z)
    (read : JsString -> option JsString) (events : list (Event View))
    (filePath : JsString) (view : View) :
  isSvg (Some filePath) = false ->
  let w := (run events (construct stat read)).1 in
  templates Template w !! filePath = None /\
  renderSvg filePath view w = (w, [], Return None).
Proof.
  intros Hsvg w.
  pose proof (cache_ok_run events _ (cache_ok_construct stat read)) as Hw.
  fold w in Hw.
  assert (templates Template w !! filePath = None) as Hnone.
  { destruct (templates Template w !! filePath) as [info|] eqn:E; [| done].
    destruct (Hw _ _ E) as [H _]. congruence. }
  split; [done |].
  unfold SvgTemplates.renderSvg, SvgTemplates.getTemplate.
  destruct (falsy (Some filePath)); [done |].
  rewrite Hnone. simpl. unfold SvgTemplates.cacheTemplate.
  by rewrite Hsvg.
Qed.

(** Once a path has been rendered, it is rendered from the cache: whatever
    happens to the disk afterwards, rendering it again gives the same
    answer, reads nothing and changes nothing. *)
Theorem rendered_template_is_cached (w : World) (filePath : JsString)
    (view : View) (uri : JsString) (stat : JsString -> option Z)
    (read : JsString -> option JsString) :
  let first := renderSvg filePath view w in
  first.2 = Return (Some uri) ->
  let w1 := (handle (DiskChange View stat read) first.1.1).1 in
  renderSvg filePath view w1 = (w1, [], Return (Some uri)).
Proof.
  intros first Hfirst w1. subst w1 first. revert Hfirst.
  unfold SvgTemplates.renderSvg, SvgTemplates.getTemplate.
  destruct (falsy (Some filePath)) eqn:Hf; [done |].
  destruct (templates Template w !! filePath ≫= _) as [t|] eqn:Ht; simpl.
  - destruct (apply_template t view) as [svg|e] eqn:Ha; simpl; [| done].
    intros [= <-]. rewrite Ht. simpl. by rewrite Ha.
  - unfold SvgTemplates.cacheTemplate.
    destruct (isSvg (Some filePath)); simpl; [| done].
    destruct (mtime Template w filePath) as [m|]; [| done].
    destruct (content Template w filePath) as [c|]; [| done].
    simpl. destruct (apply_template (compile c) view) as [svg|e] eqn:Ha;
      simpl; [| done].
    intros [= <-]. rewrite lookup_insert_eq. simpl. by rewrite Ha.
Qed.

(** A change reported by the watcher, and a [reset()], make the next
    rendering use what is on the disk: the file is read again and the
    template compiled from its content is the one applied, whatever was
    cached and whatever its modification time. *)
Theorem change_and_reset_reload (w : World) (reported filePath : JsString)
    (view : View) (modified : Z) (text : JsString) :
  isSvg (Some filePath) = true ->
  falsy (Some filePath) = false ->
  mtime Template w filePath = Some modified ->
  content Template w filePath = Some text ->
  (slashes (normalize reported) = filePath ->
   let r := on_change reported w in
   r.2 = [StatSync filePath; ReadFileSync filePath; WatcherAdd filePath] /\
   (renderSvg filePath view r.1).2
   = (s ← apply_template (compile text) view; mret (Some (data_uri s))) /\
   (renderSvg filePath view r.1).1.2 = []) /\
  (let r := renderSvg filePath view (reset w) in
   r.1.2 = [StatSync filePath; ReadFileSync filePath; WatcherAdd filePath] /\
   r.2 = (s ← apply_template (compile text) view; mret (Some (data_uri s)))).
Proof.
  intros Hsvg Hf Hm Hc. split.
  - intros Hp. unfold SvgTemplates.on_change. rewrite Hp.
    unfold SvgTemplates.cacheTemplate. rewrite Hsvg, Hm, Hc. simpl.
    split; [done |].
    unfold SvgTemplates.renderSvg, SvgTemplates.getTemplate.
    rewrite Hf. simpl. by rewrite lookup_insert_eq.
  - unfold SvgTemplates.renderSvg, SvgTemplates.getTemplate.
    rewrite Hf. simpl. rewrite lookup_empty. simpl.
    unfold SvgTemplates.cacheTemplate. rewrite Hsvg. simpl.
    by rewrite Hm, Hc.
Qed.

(** An SVG file that cannot be read is reported on the console and
    rendered as [undefined]: nothing is thrown, nothing is cached, and the
    next rendering tries the disk again. *)
Theorem unreadable_file_is_not_cached (w : World) (filePath : JsString)
    (view : View) :
  isSvg (Some filePath) = true ->
  falsy (Some filePath) = false ->
  templates Template w !! filePath = None ->
  mtime Template w filePath = None \/ content Template w filePath = None ->
  let r := renderSvg filePath view w in
  r.1.1 = w /\ r.2 = Return None /\
  last r.1.2 = Some (ConsoleError) /\ head r.1.2 = Some (StatSync filePath).
Proof.
  intros Hsvg Hf Hnone Hdisk.
  unfold SvgTemplates.renderSvg, SvgTemplates.getTemplate.
  rewrite Hf, Hnone. simpl. unfold SvgTemplates.cacheTemplate.
  rewrite Hsvg. simpl.
  destruct (mtime Template w filePath) as [m|]; [| done].
  destruct Hdisk as [? | ->]; done.
Qed.

End Manager.

(** *** A manager on a small disk *)

(** The simplest collaborators: the extension is the last four code units,
    text is already in lower case and normalized, a template is its text
    and renders as itself. *)
Definition last_four (p : JsString) : JsString := drop (length p - 4) p.
Definition same (p : JsString) : JsString := p.
Definition as_text (t : JsString) (_ : unit) : Result JsString := Return t.

(** A disk that holds one file. *)
Definition one_file (name : JsString) {A} (a : A) (p : JsString) : option A :=
  if bool_decide (p = name) then Some a else None.

Definition small_disk : World JsString :=
  construct JsString (one_file (js "icon.svg") 1)
    (one_file (js "icon.svg") (js "<svg/>")).

Lemma only_svg_paths_are_cached_witness :
  renderSvg last_four same JsString unit same as_text same
    (js "icon.png") () small_disk
  = (small_disk, [], Return None).
Proof.
  apply (only_svg_paths_are_cached last_four same same JsString unit same
           as_text same _ _ [] (js "icon.png") ()).
  reflexivity.
Defined.

Lemma rendered_template_is_cached_witness :
  let first := renderSvg last_four same JsString unit same as_text same
                 (js "icon.svg") () small_disk in
  let w1 := (handle last_four same same JsString unit same as_text same
               (DiskChange unit (fun _ => None) (fun _ => None))
               first.1.1).1 in
  first.1.2 = [StatSync (js "icon.svg"); ReadFileSync (js "icon.svg");
               WatcherAdd (js "icon.svg")] /\
  renderSvg last_four same JsString unit same as_text same
    (js "icon.svg") () w1
  = (w1, [], Return (Some (js "data:image/svg+xml;base64,<svg/>"))).
Proof.
  split; [reflexivity |].
  apply (rendered_template_is_cached last_four same same JsString unit same
           as_text same small_disk (js "icon.svg") ()).
  reflexivity.
Defined.

Lemma change_and_reset_reload_witness :
  let r := renderSvg last_four same JsString unit same as_text same
             (js "icon.svg") () (reset JsString small_disk) in
  r.1.2 = [StatSync (js "icon.svg"); ReadFileSync (js "icon.svg");
           WatcherAdd (js "icon.svg")] /\
  r.2 = Return (Some (js "data:image/svg+xml;base64,<svg/>")).
Proof.
  destruct (change_and_reset_reload last_four same same JsString unit same
              as_text same small_disk (js "icon.svg") (js "icon.svg") ()
              1 (js "<svg/>") eq_refl eq_refl eq_refl eq_refl) as [_ H].
  exact H.
Defined.

Lemma unreadable_file_is_not_cached_witness :
  let r := renderSvg last_four same JsString unit same as_text same
             (js "gone.svg") () small_disk in
  r.1.1 = small_disk /\ r.2 = Return None /\
  r.1.2 = [StatSync (js "gone.svg"); ConsoleError].
Proof.
  destruct (unreadable_file_is_not_cached last_four same JsString unit same
              as_text same small_disk (js "gone.svg") ()
              eq_refl eq_refl eq_refl (or_introl eq_refl))
    as (H1 & H2 & _).
  split; [exact H1 |]. split; [exact H2 | reflexivity].
Defined.

End SvgTemplatesProps.
